(** * IP-Security: the blocklist manager, embedded and verified

    This development embeds [examples/blocklist_manager.py] together with the
    part of Python's standard [ipaddress], [json] and [str] machinery that the
    manager calls, and settles the properties the specification states about
    it.

    Conventions.
    - A Python [str] is a Rocq [string] whose characters are the code points
      0..255; every function below treats a character by its code point.
    - A Python [int] is a [Z]; Python integers do not wrap around.
    - [ipaddress] is modelled after CPython 3.11 (IPv6 zone identifiers are
      accepted since 3.9; [int] refuses more than 4300 digits since 3.11).
    - A Python [set] is the list of its elements in iteration order.  The
      language leaves that order unspecified: [set_add] puts a new element
      last, and [reachable] lets the elements of a set come in any order,
      so that what is proved of the reachable states holds for every
      iteration order. *)

From Stdlib Require Import ZArith List String Ascii Bool Lia.
Import ListNotations.
From Stdlib Require Import Permutation Sorting.Sorted.
From Stdlib Require DecimalString HexadecimalString.

Open Scope string_scope.
Open Scope list_scope.
Open Scope Z_scope.

(** ** Python strings *)

Module Str.

Definition ord (c : ascii) : Z := Z.of_N (N_of_ascii c).

(** The double-quote character, code point 34. *)
Definition dquote : ascii := ascii_of_N 34.

(** [c in s] for a one-character [c]. *)
Fixpoint contains (c : ascii) (s : string) : bool :=
  match s with
  | EmptyString => false
  | String d s' => Ascii.eqb d c || contains c s'
  end.

(** [s.split(sep)] for a one-character separator: never an empty list. *)
Fixpoint split (sep : ascii) (s : string) : list string :=
  match s with
  | EmptyString => [EmptyString]
  | String c s' =>
      if Ascii.eqb c sep then EmptyString :: split sep s'
      else match split sep s' with
           | p :: ps => String c p :: ps
           | [] => [String c EmptyString]
           end
  end.

(** [s.partition(sep)]: the text before the first [sep], whether [sep] was
    found, and the text after it. *)
Fixpoint partition (sep : ascii) (s : string) : string * bool * string :=
  match s with
  | EmptyString => (EmptyString, false, EmptyString)
  | String c s' =>
      if Ascii.eqb c sep then (EmptyString, true, s')
      else let '(a, found, b) := partition sep s' in (String c a, found, b)
  end.

(** [sep.join(parts)]. *)
Fixpoint join (sep : string) (parts : list string) : string :=
  match parts with
  | [] => EmptyString
  | [p] => p
  | p :: ps => (p ++ sep ++ join sep ps)%string
  end.

(** The characters [str.strip()] removes, among the code points 0..255:
    TAB, LF, VT, FF, CR, FS, GS, RS, US, space, NEL and NBSP. *)
Definition isspace (c : ascii) : bool :=
  let n := ord c in
  ((9 <=? n) && (n <=? 13)) || ((28 <=? n) && (n <=? 32))
  || (n =? 133) || (n =? 160).

Fixpoint lstrip (s : string) : string :=
  match s with
  | EmptyString => EmptyString
  | String c s' => if isspace c then lstrip s' else s
  end.

Fixpoint rstrip (s : string) : string :=
  match s with
  | EmptyString => EmptyString
  | String c s' =>
      match rstrip s' with
      | EmptyString => if isspace c then EmptyString else String c EmptyString
      | r => String c r
      end
  end.

Definition strip (s : string) : string := rstrip (lstrip s).

(** [s.startswith(c)] for a one-character [c]. *)
Definition startswith (c : ascii) (s : string) : bool :=
  match s with
  | EmptyString => false
  | String d _ => Ascii.eqb d c
  end.

Definition is_digit (c : ascii) : bool := (48 <=? ord c) && (ord c <=? 57).

Fixpoint all_chars (p : ascii -> bool) (s : string) : bool :=
  match s with
  | EmptyString => true
  | String c s' => p c && all_chars p s'
  end.

(** [s.isascii() and s.isdigit()]: a non-empty run of '0'..'9'. *)
Definition isascii_isdigit (s : string) : bool :=
  negb (String.eqb s "") && all_chars is_digit s.

Definition is_hex_digit (c : ascii) : bool :=
  is_digit c || ((65 <=? ord c) && (ord c <=? 70))
  || ((97 <=? ord c) && (ord c <=? 102)).

Definition hex_value (c : ascii) : Z :=
  if is_digit c then ord c - 48
  else if 97 <=? ord c then ord c - 87 else ord c - 55.

Fixpoint digits_value (base : Z) (acc : Z) (s : string) : Z :=
  match s with
  | EmptyString => acc
  | String c s' => digits_value base (acc * base + hex_value c) s'
  end.

(** [sys.int_info.default_max_str_digits]. *)
Definition max_str_digits : nat := 4300.

(** [int(s)] on a string already known to hold decimal digits only; [None]
    is the ValueError raised for more than 4300 digits. *)
Definition int10 (s : string) : option Z :=
  if (max_str_digits <? String.length s)%nat then None
  else Some (digits_value 10 0 s).

(** [int(s, 16)] on a string of at most four hexadecimal digits; [None] is
    the ValueError raised for the empty string. *)
Definition int16 (s : string) : option Z :=
  if String.eqb s "" then None else Some (digits_value 16 0 s).

(** [str(n)] and ['%d' % n] for [n >= 0]. *)
Definition of_int (n : Z) : string :=
  DecimalString.NilZero.string_of_uint (N.to_uint (Z.to_N n)).

(** ['%x' % n] for [n >= 0]. *)
Definition of_hex (n : Z) : string :=
  HexadecimalString.NilZero.string_of_uint (N.to_hex_uint (Z.to_N n)).

End Str.

(** [repr(s)] of a [str], as CPython writes it for the code points 0..255. *)
Module Repr.

Definition hex_digit (n : Z) : ascii :=
  ascii_of_N (Z.to_N (if n <? 10 then 48 + n else 87 + n)).

(** Code points that [repr] copies unescaped. *)
Definition isprintable (c : ascii) : bool :=
  let n := Str.ord c in
  ((32 <=? n) && (n <? 127)) || ((161 <=? n) && negb (n =? 173)).

Definition escape_char (quote c : ascii) : string :=
  let n := Str.ord c in
  if Ascii.eqb c quote || (n =? 92) then String "\" (String c "")
  else if n =? 9 then "\t"
  else if n =? 10 then "\n"
  else if n =? 13 then "\r"
  else if isprintable c then String c ""
  else String "\" (String "x" (String (hex_digit (n / 16))
                                 (String (hex_digit (n mod 16)) ""))).

Fixpoint escape (quote : ascii) (s : string) : string :=
  match s with
  | EmptyString => EmptyString
  | String c s' => (escape_char quote c ++ escape quote s')%string
  end.

Definition repr (s : string) : string :=
  let quote : ascii :=
    if Str.contains "'" s && negb (Str.contains Str.dquote s) then Str.dquote
    else "'"%char in
  String quote (escape quote s ++ String quote "")%string.

End Repr.

(** ** The standard [ipaddress] module, as far as the manager uses it *)

Module ipaddress.

(** The exceptions of the module.  [AddressValueError] and
    [NetmaskValueError] are subclasses of [ValueError]; their messages are
    left out because [ip_address] and [ip_network] discard them.  [TypeError]
    is what comparing objects of two versions raises. *)
Inductive exn : Type :=
| AddressValueError
| NetmaskValueError
| ValueError (msg : string)
| TypeError.

Inductive result (A : Type) : Type :=
| Ok (a : A)
| Raise (e : exn).
Arguments Ok {A} a.
Arguments Raise {A} e.

Definition bind {A B : Type} (r : result A) (k : A -> result B) : result B :=
  match r with
  | Ok a => k a
  | Raise e => Raise e
  end.

Notation "x <- r ;; k" := (bind r (fun x => k))
  (at level 100, r at next level, right associativity).

(** A helper whose only failure is a plain ValueError that its caller
    catches and re-raises as [e]. *)
Definition or_raise {A : Type} (e : exn) (o : option A) : result A :=
  match o with
  | Some a => Ok a
  | None => Raise e
  end.

(** [except (AddressValueError, NetmaskValueError): pass], then [next]. *)
Definition except_address_netmask {A : Type} (r next : result A) : result A :=
  match r with
  | Raise AddressValueError | Raise NetmaskValueError => next
  | _ => r
  end.

Fixpoint mapM {A B : Type} (f : A -> option B) (l : list A) : option (list B) :=
  match l with
  | [] => Some []
  | x :: l' =>
      match f x with
      | None => None
      | Some y =>
          match mapM f l' with
          | None => None
          | Some ys => Some (y :: ys)
          end
      end
  end.

Inductive Version : Type := V4 | V6.

Definition Version_eqb (a b : Version) : bool :=
  match a, b with
  | V4, V4 | V6, V6 => true
  | _, _ => false
  end.

Definition version_number (v : Version) : Z :=
  match v with V4 => 4 | V6 => 6 end.

Definition IPV4LENGTH : Z := 32.
Definition IPV6LENGTH : Z := 128.

(** An [IPv4Address] or [IPv6Address] object; [_scope_id] is [None] for
    every IPv4 address. *)
Record Address : Type := mkAddress {
  _version : Version;
  _ip : Z;
  _scope_id : option string
}.

(** An [IPv4Network] or [IPv6Network] object. *)
Record Network : Type := mkNetwork {
  network_address : Address;
  netmask : Address;
  _prefixlen : Z
}.

Definition version (n : Network) : Version := _version (network_address n).

(** *** [_IPAddressBase] *)

Definition _max_prefixlen (cls : Version) : Z :=
  match cls with V4 => IPV4LENGTH | V6 => IPV6LENGTH end.

Definition _ALL_ONES (cls : Version) : Z := 2 ^ _max_prefixlen cls - 1.

Definition _check_int_address (cls : Version) (address : Z) : result unit :=
  if address <? 0 then Raise AddressValueError
  else if _ALL_ONES cls <? address then Raise AddressValueError
  else Ok tt.

(** The constructor of an address from an [int]. *)
Definition Address_of_int (cls : Version) (address : Z) : result Address :=
  _ <- _check_int_address cls address ;;
  Ok (mkAddress cls address None).

Definition _ip_int_from_prefix (cls : Version) (prefixlen : Z) : Z :=
  Z.lxor (_ALL_ONES cls) (Z.shiftr (_ALL_ONES cls) prefixlen).

(** [n.bit_length()] for [n >= 0]. *)
Definition bit_length (n : Z) : Z :=
  if n =? 0 then 0 else Z.log2 n + 1.

Definition _count_righthand_zero_bits (number bits : Z) : Z :=
  if number =? 0 then bits
  else Z.min bits (bit_length (Z.land (Z.lnot number) (number - 1))).

(** [None] is the ValueError for a mask that mixes zeroes and ones. *)
Definition _prefix_from_ip_int (cls : Version) (ip_int : Z) : option Z :=
  let trailing_zeroes := _count_righthand_zero_bits ip_int (_max_prefixlen cls) in
  let prefixlen := _max_prefixlen cls - trailing_zeroes in
  let leading_ones := Z.shiftr ip_int trailing_zeroes in
  let all_ones := Z.shiftl 1 prefixlen - 1 in
  if negb (leading_ones =? all_ones) then None else Some prefixlen.

Definition _prefix_from_prefix_string (cls : Version) (prefixlen_str : string)
  : result Z :=
  if negb (Str.isascii_isdigit prefixlen_str) then Raise NetmaskValueError
  else
    prefixlen <- or_raise NetmaskValueError (Str.int10 prefixlen_str) ;;
    if negb ((0 <=? prefixlen) && (prefixlen <=? _max_prefixlen cls))
    then Raise NetmaskValueError
    else Ok prefixlen.

(** [cls._ip_int_from_string] is passed as [ip_int_from_string]. *)
Definition _prefix_from_ip_string (cls : Version)
    (ip_int_from_string : string -> result Z) (ip_str : string) : result Z :=
  ip_int <- match ip_int_from_string ip_str with
            | Raise AddressValueError => Raise NetmaskValueError
            | r => r
            end ;;
  match _prefix_from_ip_int cls ip_int with
  | Some prefixlen => Ok prefixlen
  | None =>
      let ip_int := Z.lxor ip_int (_ALL_ONES cls) in
      or_raise NetmaskValueError (_prefix_from_ip_int cls ip_int)
  end.

(** [_split_optional_netmask]. *)
Definition _split_optional_netmask (address : string) : result (list string) :=
  let addr := Str.split "/" address in
  if (2 <? List.length addr)%nat then Raise AddressValueError else Ok addr.

(** The second component of what [_split_addr_prefix] returns: the text
    after the slash, or the integer [_max_prefixlen] when there is none. *)
Inductive mask_arg : Type :=
| MaskStr (s : string)
| MaskInt (n : Z).

Definition _split_addr_prefix (cls : Version) (address : string)
  : result (string * mask_arg) :=
  address <- _split_optional_netmask address ;;
  match address with
  | [a] => Ok (a, MaskInt (_max_prefixlen cls))
  | a :: m :: _ => Ok (a, MaskStr m)
  | [] => Raise AddressValueError
  end.

(** *** [_BaseV4] and [IPv4Address] *)

Module _BaseV4.

(** [None] is the ValueError for an octet that is not a decimal 0..255. *)
Definition _parse_octet (octet_str : string) : option Z :=
  if String.eqb octet_str "" then None
  else if negb (Str.isascii_isdigit octet_str) then None
  else if (3 <? String.length octet_str)%nat then None
  else if negb (String.eqb octet_str "0") && Str.startswith "0" octet_str
  then None
  else
    match Str.int10 octet_str with
    | None => None
    | Some octet_int => if 255 <? octet_int then None else Some octet_int
    end.

(** [int.from_bytes(bs, 'big')]. *)
Definition int_from_bytes (bs : list Z) : Z :=
  fold_left (fun acc b => acc * 256 + b) bs 0.

Definition _ip_int_from_string (ip_str : string) : result Z :=
  if String.eqb ip_str "" then Raise AddressValueError
  else
    let octets := Str.split "." ip_str in
    if negb (List.length octets =? 4)%nat then Raise AddressValueError
    else
      bs <- or_raise AddressValueError (mapM _parse_octet octets) ;;
      Ok (int_from_bytes bs).

(** ['.'.join(map(str, ip_int.to_bytes(4, 'big')))]. *)
Definition _string_from_ip_int (ip_int : Z) : string :=
  Str.join "." (map (fun k => Str.of_int (Z.land (Z.shiftr ip_int k) 255))
                    [24; 16; 8; 0]).

End _BaseV4.

(** [IPv4Address(address)] for a [str]. *)
Definition IPv4Address (address : string) : result Address :=
  if Str.contains "/" address then Raise AddressValueError
  else
    ip <- _BaseV4._ip_int_from_string address ;;
    Ok (mkAddress V4 ip None).

Definition _make_netmask_v4 (arg : mask_arg) : result (Address * Z) :=
  prefixlen <-
    match arg with
    | MaskInt prefixlen =>
        if negb ((0 <=? prefixlen) && (prefixlen <=? _max_prefixlen V4))
        then Raise NetmaskValueError else Ok prefixlen
    | MaskStr arg =>
        match _prefix_from_prefix_string V4 arg with
        | Raise NetmaskValueError =>
            _prefix_from_ip_string V4 _BaseV4._ip_int_from_string arg
        | r => r
        end
    end ;;
  netmask <- Address_of_int V4 (_ip_int_from_prefix V4 prefixlen) ;;
  Ok (netmask, prefixlen).

(** *** [_BaseV6] and [IPv6Address] *)

Module _BaseV6.

Definition _HEXTET_COUNT : Z := 8.

(** [None] is the ValueError for a hextet that is not 1..4 hex digits. *)
Definition _parse_hextet (hextet_str : string) : option Z :=
  if negb (Str.all_chars Str.is_hex_digit hextet_str) then None
  else if (4 <? String.length hextet_str)%nat then None
  else Str.int16 hextet_str.

(** The loop that looks for an empty part strictly between the endpoints;
    [i] is the index of the head of [parts], [n] is [len(parts)].  The outer
    [None] is the AddressValueError for a second double colon. *)
Fixpoint find_skip_index (i n : Z) (parts : list string)
    (skip_index : option Z) : option (option Z) :=
  match parts with
  | [] => Some skip_index
  | p :: parts' =>
      if (1 <=? i) && (i <? n - 1) && String.eqb p "" then
        match skip_index with
        | Some _ => None
        | None => find_skip_index (i + 1) n parts' (Some i)
        end
      else find_skip_index (i + 1) n parts' skip_index
  end.

(** [ip_int <<= 16; ip_int |= _parse_hextet(part)] over [parts]. *)
Fixpoint parse_hextets (ip_int : Z) (parts : list string) : option Z :=
  match parts with
  | [] => Some ip_int
  | p :: parts' =>
      match _parse_hextet p with
      | None => None
      | Some h => parse_hextets (Z.lor (Z.shiftl ip_int 16) h) parts'
      end
  end.

Definition _ip_int_from_string (ip_str : string) : result Z :=
  if String.eqb ip_str "" then Raise AddressValueError
  else
    let parts := Str.split ":" ip_str in
    let _min_parts := 3%nat in
    if (List.length parts <? _min_parts)%nat then Raise AddressValueError
    else
      parts <-
        (if Str.contains "." (List.last parts "") then
           ipv4 <- IPv4Address (List.last parts "") ;;
           let ipv4_int := _ip ipv4 in
           Ok (List.removelast parts
               ++ [Str.of_hex (Z.land (Z.shiftr ipv4_int 16) 65535);
                   Str.of_hex (Z.land ipv4_int 65535)])
         else Ok parts) ;;
      let n := Z.of_nat (List.length parts) in
      let _max_parts := _HEXTET_COUNT + 1 in
      if _max_parts <? n then Raise AddressValueError
      else
        skip_index <- or_raise AddressValueError
                        (find_skip_index 0 n parts None) ;;
        let first_empty := String.eqb (List.hd "" parts) "" in
        let last_empty := String.eqb (List.last parts "") "" in
        counts <-
          match skip_index with
          | Some skip_index =>
              let parts_hi := skip_index in
              let parts_lo := n - skip_index - 1 in
              parts_hi <-
                (if first_empty then
                   if negb (parts_hi - 1 =? 0) then Raise AddressValueError
                   else Ok (parts_hi - 1)
                 else Ok parts_hi) ;;
              parts_lo <-
                (if last_empty then
                   if negb (parts_lo - 1 =? 0) then Raise AddressValueError
                   else Ok (parts_lo - 1)
                 else Ok parts_lo) ;;
              let parts_skipped := _HEXTET_COUNT - (parts_hi + parts_lo) in
              if parts_skipped <? 1 then Raise AddressValueError
              else Ok (parts_hi, parts_lo, parts_skipped)
          | None =>
              if negb (n =? _HEXTET_COUNT) then Raise AddressValueError
              else if first_empty then Raise AddressValueError
              else if last_empty then Raise AddressValueError
              else Ok (n, 0, 0)
          end ;;
        let '(parts_hi, parts_lo, parts_skipped) := counts in
        or_raise AddressValueError
          (match parse_hextets 0 (firstn (Z.to_nat parts_hi) parts) with
           | None => None
           | Some ip_int =>
               parse_hextets (Z.shiftl ip_int (16 * parts_skipped))
                 (skipn (Z.to_nat (n - parts_lo)) parts)
           end).

(** The state of the scan in [_compress_hextets]. *)
Record scan : Type := mkScan {
  best_doublecolon_start : Z;
  best_doublecolon_len : Z;
  doublecolon_start : Z;
  doublecolon_len : Z
}.

Definition scan_step (st : scan) (index : Z) (hextet : string) : scan :=
  if String.eqb hextet "0" then
    let len := doublecolon_len st + 1 in
    let start :=
      if doublecolon_start st =? -1 then index else doublecolon_start st in
    if best_doublecolon_len st <? len
    then mkScan start len start len
    else mkScan (best_doublecolon_start st) (best_doublecolon_len st) start len
  else mkScan (best_doublecolon_start st) (best_doublecolon_len st) (-1) 0.

Fixpoint scan_hextets (st : scan) (index : Z) (hextets : list string) : scan :=
  match hextets with
  | [] => st
  | h :: hs => scan_hextets (scan_step st index h) (index + 1) hs
  end.

Definition _compress_hextets (hextets : list string) : list string :=
  let st := scan_hextets (mkScan (-1) 0 (-1) 0) 0 hextets in
  if 1 <? best_doublecolon_len st then
    let best_doublecolon_end :=
      best_doublecolon_start st + best_doublecolon_len st in
    let hextets :=
      if best_doublecolon_end =? Z.of_nat (List.length hextets)
      then hextets ++ [""] else hextets in
    let hextets :=
      firstn (Z.to_nat (best_doublecolon_start st)) hextets
      ++ [""] ++ skipn (Z.to_nat best_doublecolon_end) hextets in
    if best_doublecolon_start st =? 0 then "" :: hextets else hextets
  else hextets.

(** The eight hextets are read off the integer rather than off its
    ['%032x'] rendering. *)
Definition _string_from_ip_int (ip_int : Z) : string :=
  let hextets :=
    map (fun k => Str.of_hex (Z.land (Z.shiftr ip_int k) 65535))
        [112; 96; 80; 64; 48; 32; 16; 0] in
  Str.join ":" (_compress_hextets hextets).

Definition _split_scope_id (ip_str : string) : result (string * option string) :=
  let '(addr, sep, scope_id) := Str.partition "%" ip_str in
  if negb sep then Ok (addr, None)
  else if String.eqb scope_id "" || Str.contains "%" scope_id
  then Raise AddressValueError
  else Ok (addr, Some scope_id).

End _BaseV6.

(** [IPv6Address(address)] for a [str]. *)
Definition IPv6Address (address : string) : result Address :=
  if Str.contains "/" address then Raise AddressValueError
  else
    p <- _BaseV6._split_scope_id address ;;
    ip <- _BaseV6._ip_int_from_string (fst p) ;;
    Ok (mkAddress V6 ip (snd p)).

Definition _make_netmask_v6 (arg : mask_arg) : result (Address * Z) :=
  prefixlen <-
    match arg with
    | MaskInt prefixlen =>
        if negb ((0 <=? prefixlen) && (prefixlen <=? _max_prefixlen V6))
        then Raise NetmaskValueError else Ok prefixlen
    | MaskStr arg => _prefix_from_prefix_string V6 arg
    end ;;
  netmask <- Address_of_int V6 (_ip_int_from_prefix V6 prefixlen) ;;
  Ok (netmask, prefixlen).

(** *** Printing, equality and order *)

(** [str(address)]. *)
Definition Address_str (a : Address) : string :=
  match _version a with
  | V4 => _BaseV4._string_from_ip_int (_ip a)
  | V6 =>
      let ip_str := _BaseV6._string_from_ip_int (_ip a) in
      match _scope_id a with
      | Some scope_id => (ip_str ++ "%" ++ scope_id)%string
      | None => ip_str
      end
  end.

(** [str(network)], that is ['%s/%d' % (network_address, prefixlen)]. *)
Definition Network_str (n : Network) : string :=
  (Address_str (network_address n) ++ "/" ++ Str.of_int (_prefixlen n))%string.

Definition scope_eqb (a b : option string) : bool :=
  match a, b with
  | None, None => true
  | Some x, Some y => String.eqb x y
  | _, _ => false
  end.

(** [a == b] on addresses: [_BaseAddress.__eq__], and for an IPv6 address
    the zone identifiers as well. *)
Definition Address_eqb (a b : Address) : bool :=
  (_ip a =? _ip b) && Version_eqb (_version a) (_version b)
  && match _version a with
     | V4 => true
     | V6 => scope_eqb (_scope_id a) (_scope_id b)
     end.

(** [a < b] on addresses: [_BaseAddress.__lt__]. *)
Definition Address_lt (a b : Address) : result bool :=
  if negb (Version_eqb (_version a) (_version b)) then Raise TypeError
  else if negb (_ip a =? _ip b) then Ok (_ip a <? _ip b)
  else Ok false.

(** [a == b] on networks: [_BaseNetwork.__eq__]. *)
Definition Network_eqb (a b : Network) : bool :=
  Version_eqb (version a) (version b)
  && Address_eqb (network_address a) (network_address b)
  && (_ip (netmask a) =? _ip (netmask b)).

(** [a < b] on networks: [_BaseNetwork.__lt__]. *)
Definition Network_lt (a b : Network) : result bool :=
  if negb (Version_eqb (version a) (version b)) then Raise TypeError
  else if negb (Address_eqb (network_address a) (network_address b))
  then Address_lt (network_address a) (network_address b)
  else if negb (Address_eqb (netmask a) (netmask b))
  then Address_lt (netmask a) (netmask b)
  else Ok false.

(** [other in self] for an address [other]: [_BaseNetwork.__contains__]. *)
Definition Network_contains (self : Network) (other : Address) : bool :=
  if negb (Version_eqb (version self) (_version other)) then false
  else Z.land (_ip other) (_ip (netmask self)) =? _ip (network_address self).

(** [network.broadcast_address], as an integer. *)
Definition broadcast_address (n : Network) : Z :=
  Z.lor (_ip (network_address n))
        (Z.lxor (_ip (netmask n)) (_ALL_ONES (version n))).

(** *** The network classes and the two factory functions *)

Definition IPv4Network (address : string) (strict : bool) : result Network :=
  p <- _split_addr_prefix V4 address ;;
  network_address <- IPv4Address (fst p) ;;
  m <- _make_netmask_v4 (snd p) ;;
  let packed := _ip network_address in
  network_address <-
    (if negb (Z.land packed (_ip (fst m)) =? packed) then
       if strict then
         Raise (ValueError
                  (Network_str (mkNetwork network_address (fst m) (snd m))
                   ++ " has host bits set")%string)
       else Address_of_int V4 (Z.land packed (_ip (fst m)))
     else Ok network_address) ;;
  Ok (mkNetwork network_address (fst m) (snd m)).

Definition IPv6Network (address : string) (strict : bool) : result Network :=
  p <- _split_addr_prefix V6 address ;;
  network_address <- IPv6Address (fst p) ;;
  m <- _make_netmask_v6 (snd p) ;;
  let packed := _ip network_address in
  network_address <-
    (if negb (Z.land packed (_ip (fst m)) =? packed) then
       if strict then
         Raise (ValueError
                  (Network_str (mkNetwork network_address (fst m) (snd m))
                   ++ " has host bits set")%string)
       else Address_of_int V6 (Z.land packed (_ip (fst m)))
     else Ok network_address) ;;
  Ok (mkNetwork network_address (fst m) (snd m)).

Definition ip_address (address : string) : result Address :=
  except_address_netmask (IPv4Address address)
    (except_address_netmask (IPv6Address address)
       (Raise (ValueError
                 (Repr.repr address
                  ++ " does not appear to be an IPv4 or IPv6 address")%string))).

Definition ip_network (address : string) (strict : bool) : result Network :=
  except_address_netmask (IPv4Network address strict)
    (except_address_netmask (IPv6Network address strict)
       (Raise (ValueError
                 (Repr.repr address
                  ++ " does not appear to be an IPv4 or IPv6 network")%string))).

End ipaddress.

(** ** The standard [json] encoder, as far as the manager uses it *)

Module json.

(** The Python values the manager serialises: [str], non-negative [int],
    [list] and [dict] with [str] keys (a [dict] keeps insertion order). *)
#[local] Set Warnings "-register-all".
Inductive value : Type :=
| JString (s : string)
| JInt (n : Z)
| JArray (items : list value)
| JObject (items : list (string * value)).

Definition nl : string := String (ascii_of_N 10) "".

Definition hex4 (n : Z) : string :=
  String (Repr.hex_digit (n / 4096 mod 16))
    (String (Repr.hex_digit (n / 256 mod 16))
       (String (Repr.hex_digit (n / 16 mod 16))
          (String (Repr.hex_digit (n mod 16)) ""))).

(** One character of [py_encode_basestring_ascii]. *)
Definition escape_char (c : ascii) : string :=
  let n := Str.ord c in
  if n =? 34 then String "\" (String c "")
  else if n =? 92 then "\\"
  else if n =? 10 then "\n"
  else if n =? 13 then "\r"
  else if n =? 9 then "\t"
  else if n =? 12 then "\f"
  else if n =? 8 then "\b"
  else if (32 <=? n) && (n <=? 126) then String c ""
  else ("\u" ++ hex4 n)%string.

Fixpoint escape (s : string) : string :=
  match s with
  | EmptyString => EmptyString
  | String c s' => (escape_char c ++ escape s')%string
  end.

Definition encode_basestring_ascii (s : string) : string :=
  String Str.dquote (escape s ++ String Str.dquote "")%string.

Fixpoint indent_by (indent : string) (level : nat) : string :=
  match level with
  | O => EmptyString
  | S k => (indent ++ indent_by indent k)%string
  end.

(** [_iterencode] for a string [indent]: the item separator is a comma
    followed by the new line and indentation, the key separator is a colon
    and a space. *)
Fixpoint iterencode (indent : string) (level : nat) (v : value) : string :=
  let newline_indent := (nl ++ indent_by indent (S level))%string in
  let close := (nl ++ indent_by indent level)%string in
  match v with
  | JString s => encode_basestring_ascii s
  | JInt n => Str.of_int n
  | JArray [] => "[]"
  | JArray items =>
      ("[" ++ newline_indent
       ++ Str.join ("," ++ newline_indent)
            (map (iterencode indent (S level)) items)
       ++ close ++ "]")%string
  | JObject [] => "{}"
  | JObject items =>
      ("{" ++ newline_indent
       ++ Str.join ("," ++ newline_indent)
            (map (fun kv => let '(k, v) := kv in
                    (encode_basestring_ascii k ++ ": "
                     ++ iterencode indent (S level) v)%string) items)
       ++ close ++ "}")%string
  end.

(** The text [json.dump(obj, f, indent=2)] writes. *)
Definition dump_indent2 (obj : value) : string := iterencode "  " 0 obj.

End json.

(** ** [examples/blocklist_manager.py] *)

Module BlocklistManager.

Import ipaddress.

(** What a method does to the outside world: a line printed on standard
    output, or a file opened for writing, filled and closed. *)
Inductive event : Type :=
| Print (line : string)
| WriteFile (path : string) (content : string).

(** The part of the object and of the world that the methods touch:
    [self.blocked_ips] in iteration order, and the events so far. *)
Record state : Type := mkState {
  blocked_ips : list Network;
  trace : list event
}.

(** [BlocklistManager(blocklist_dir)]: an empty set. *)
Definition init : state := mkState [] [].

(** A method runs on a state and returns a value or an exception that
    escapes it, with the state it leaves. *)
Definition M (A : Type) : Type := state -> result A * state.

Definition ret {A : Type} (a : A) : M A := fun st => (Ok a, st).

Definition raise {A : Type} (e : exn) : M A := fun st => (Raise e, st).

Definition mbind {A B : Type} (m : M A) (k : A -> M B) : M B :=
  fun st =>
    match m st with
    | (Ok a, st') => k a st'
    | (Raise e, st') => (Raise e, st')
    end.

Notation "x <~ m ;; k" := (mbind m (fun x => k))
  (at level 100, m at next level, right associativity).

Definition print (line : string) : M unit :=
  fun st => (Ok tt, mkState (blocked_ips st) (trace st ++ [Print line])).

Definition write_file (path content : string) : M unit :=
  fun st => (Ok tt, mkState (blocked_ips st) (trace st ++ [WriteFile path content])).

(** [self.blocked_ips.add(network)]. *)
Definition set_add (network : Network) (s : list Network) : list Network :=
  if existsb (Network_eqb network) s then s else s ++ [network].

Definition blocked_ips_add (network : Network) : M unit :=
  fun st => (Ok tt, mkState (set_add network (blocked_ips st)) (trace st)).

(** [except ValueError] catches the three value errors, not [TypeError]. *)
Definition is_ValueError (e : exn) : bool :=
  match e with
  | TypeError => false
  | _ => true
  end.

(** [str(e)] for a caught exception. *)
Definition exn_str (e : exn) : string :=
  match e with
  | ValueError msg => msg
  | _ => ""
  end.

(** The body of [for line_num, line in enumerate(f, 1)]. *)
Fixpoint load_lines (line_num : Z) (lines : list string) (count : Z) : M Z :=
  match lines with
  | [] => ret count
  | line :: rest =>
      let line := Str.strip line in
      if String.eqb line "" || Str.startswith "#" line
      then load_lines (line_num + 1) rest count
      else
        match ip_network line false with
        | Ok network =>
            _ <~ blocked_ips_add network ;;
            load_lines (line_num + 1) rest (count + 1)
        | Raise e =>
            if is_ValueError e then
              _ <~ print ("Warning: Invalid IP at line " ++ Str.of_int line_num
                          ++ ": " ++ line ++ " - " ++ exn_str e)%string ;;
              load_lines (line_num + 1) rest count
            else raise e
        end
  end.

(** [load_blocklist(filename)].  [filepath] is the text of
    [self.blocklist_dir / filename]; [file] is [None] when that path does
    not exist, and otherwise the lines that iterating the open file gives. *)
Definition load_blocklist (filepath : string) (file : option (list string))
  : M Z :=
  match file with
  | None =>
      _ <~ print ("Error: Blocklist file not found: " ++ filepath)%string ;;
      ret 0
  | Some lines => load_lines 1 lines 0
  end.

(** [for network in self.blocked_ips: if ip in network: return ...]: the
    network returned, if any, and the number of containment tests made. *)
Fixpoint scan (ip : Address) (networks : list Network) : option Network * Z :=
  match networks with
  | [] => (None, 0)
  | network :: rest =>
      if Network_contains network ip then (Some network, 1)
      else let '(r, steps) := scan ip rest in (r, 1 + steps)
  end.

Definition is_blocked (ip_address : string) : M (bool * string) :=
  fun st =>
    match ipaddress.ip_address ip_address with
    | Ok ip =>
        match fst (scan ip (blocked_ips st)) with
        | Some network => (Ok (true, Network_str network), st)
        | None => (Ok (false, ""), st)
        end
    | Raise e =>
        if is_ValueError e
        then (Ok (false, "Invalid IP: " ++ exn_str e)%string, st)
        else (Raise e, st)
    end.

(** The number of containment tests one query makes. *)
Definition is_blocked_steps (ip_address : string) (st : state) : Z :=
  match ipaddress.ip_address ip_address with
  | Ok ip => snd (scan ip (blocked_ips st))
  | Raise _ => 0
  end.

(** [sorted(l)] on networks.  The built-in sort is stable and compares with
    [<] only; it is written here as the stable insertion sort, with which
    it agrees wherever [<] is a strict weak order on the elements of [l]:
    always, unless two entries share a base address and differ in the zone
    identifier. *)
Fixpoint insert_sorted (x : Network) (l : list Network) : result (list Network) :=
  match l with
  | [] => Ok [x]
  | y :: l' =>
      lt <- Network_lt y x ;;
      if lt : bool then (r <- insert_sorted x l' ;; Ok (y :: r))
      else Ok (x :: l)
  end.

Fixpoint sorted (l : list Network) : result (list Network) :=
  match l with
  | [] => Ok []
  | x :: l' => (s <- sorted l' ;; insert_sorted x s)
  end.

Definition has_version (v : Z) (n : Network) : bool :=
  version_number (version n) =? v.

Definition _sort_networks : M (list Network) :=
  fun st =>
    match sorted (filter (has_version 4) (blocked_ips st)) with
    | Raise e => (Raise e, st)
    | Ok ipv4_networks =>
        match sorted (filter (has_version 6) (blocked_ips st)) with
        | Raise e => (Raise e, st)
        | Ok ipv6_networks => (Ok (ipv4_networks ++ ipv6_networks), st)
        end
    end.

Definition concat_map (f : Network -> string) (l : list Network) : string :=
  fold_right (fun n acc => (f n ++ acc)%string) "" l.

(** The text written between [open(output_file, 'w')] and the end of the
    [with] block. *)
Definition export_content (format_type : string) (sorted_networks : list Network)
    (count : Z) : string :=
  let nl := json.nl in
  if String.eqb format_type "plain" then
    concat_map (fun network => Network_str network ++ nl)%string sorted_networks
  else if String.eqb format_type "iptables" then
    ("#!/bin/bash" ++ nl
     ++ "# Generated iptables rules" ++ nl ++ nl
     ++ concat_map (fun network =>
          "iptables -A INPUT -s " ++ Network_str network ++ " -j DROP" ++ nl)
          sorted_networks)%string
  else if String.eqb format_type "nginx" then
    ("# Generated nginx geo block" ++ nl
     ++ "geo $blocked_ip {" ++ nl
     ++ "    default 0;" ++ nl
     ++ concat_map (fun network => "    " ++ Network_str network ++ " 1;" ++ nl)
          sorted_networks
     ++ "}" ++ nl)%string
  else if String.eqb format_type "apache" then
    ("# Generated Apache blocklist" ++ nl
     ++ "<RequireAll>" ++ nl
     ++ "    Require all granted" ++ nl
     ++ concat_map (fun network =>
          "    Require not ip " ++ Network_str network ++ nl) sorted_networks
     ++ "</RequireAll>" ++ nl)%string
  else if String.eqb format_type "json" then
    json.dump_indent2
      (json.JObject
         [("blocked_ips", json.JArray (map (fun ip => json.JString (Network_str ip))
                                           sorted_networks));
          ("total_count", json.JInt count)])
  else "".

Definition export_to_format (output_file format_type : string) : M unit :=
  sorted_networks <~ _sort_networks ;;
  fun st =>
    let count := Z.of_nat (List.length (blocked_ips st)) in
    (_ <~ write_file output_file
            (export_content format_type sorted_networks count) ;;
     print ("Exported " ++ Str.of_int count ++ " entries to " ++ output_file
            ++ " (" ++ format_type ++ " format)")%string) st.

(** The [choices] of the [--format] option, and what [parse_args] does with
    a value: [None] is the usage error that ends the program with status 2
    before any command runs. *)
Definition format_choices : list string :=
  ["plain"; "iptables"; "nginx"; "apache"; "json"].

Definition parse_format (arg : option string) : option string :=
  match arg with
  | None => Some "plain"
  | Some value =>
      if existsb (String.eqb value) format_choices then Some value else None
  end.

(** The [--export] command of [main], from [parse_args] on: [None] when the
    program has ended in [parse_args], else the export that ran. *)
Definition main_export (export : string) (format : option string)
  : option (M unit) :=
  match parse_format format with
  | None => None
  | Some format_type => Some (export_to_format export format_type)
  end.

End BlocklistManager.

(** * Vocabulary of the properties *)

Import ipaddress.
Import BlocklistManager.

(** [network in s] for a Python set [s]: some stored entry compares equal. *)
Definition set_mem (network : Network) (s : list Network) : bool :=
  existsb (Network_eqb network) s.

(** The entry a line of a blocklist file stands for: none for a blank line,
    a comment, or a line the library refuses. *)
Definition entry_of (line : string) : option Network :=
  let line := Str.strip line in
  if String.eqb line "" || Str.startswith "#" line then None
  else match ip_network line false with
       | Ok network => Some network
       | Raise _ => None
       end.

(** A malformed line: neither blank, nor a comment, nor accepted. *)
Definition malformed (line : string) : bool :=
  let line := Str.strip line in
  negb (String.eqb line "" || Str.startswith "#" line)
  && match ip_network line false with
     | Ok _ => false
     | Raise _ => true
     end.

(** The diagnostic printed for the malformed line number [line_num]. *)
Definition warning (line_num : Z) (line : string) : event :=
  Print ("Warning: Invalid IP at line " ++ Str.of_int line_num ++ ": "
         ++ Str.strip line ++ " - " ++ Repr.repr (Str.strip line)
         ++ " does not appear to be an IPv4 or IPv6 network")%string.

Fixpoint entries (lines : list string) : list Network :=
  match lines with
  | [] => []
  | line :: rest =>
      match entry_of line with
      | Some network => network :: entries rest
      | None => entries rest
      end
  end.

Fixpoint warnings (line_num : Z) (lines : list string) : list event :=
  match lines with
  | [] => []
  | line :: rest =>
      if malformed line then warning line_num line :: warnings (line_num + 1) rest
      else warnings (line_num + 1) rest
  end.

(** The states a manager can be in: a fresh one, and whatever a method
    leaves behind.  The last rule stands for the iteration order of a set
    being unspecified: the same elements may come in any order. *)
Inductive reachable : state -> Prop :=
| reachable_init : reachable init
| reachable_load filepath file st :
    reachable st -> reachable (snd (load_blocklist filepath file st))
| reachable_query ip_address st :
    reachable st -> reachable (snd (is_blocked ip_address st))
| reachable_export output_file format_type st :
    reachable st -> reachable (snd (export_to_format output_file format_type st))
| reachable_reorder s st :
    reachable st -> Permutation s (blocked_ips st) ->
    reachable (mkState s (trace st)).

(** What every network object built by [ip_network] satisfies. *)
Record wf_network (n : Network) : Prop := {
  wf_mask_version : _version (netmask n) = version n;
  wf_mask_scope : _scope_id (netmask n) = None;
  wf_prefixlen : 0 <= _prefixlen n <= _max_prefixlen (version n);
  wf_mask : _ip (netmask n) = _ip_int_from_prefix (version n) (_prefixlen n);
  wf_address : 0 <= _ip (network_address n) <= _ALL_ONES (version n);
  wf_v4_scope : version n = V4 -> _scope_id (network_address n) = None;
  wf_canonical :
    Z.land (_ip (network_address n)) (_ip (netmask n)) = _ip (network_address n)
}.

(** The two exceptions that [ip_address] and [ip_network] swallow. *)
Definition address_or_netmask (e : exn) : Prop :=
  e = AddressValueError \/ e = NetmaskValueError.

(** [x] is a valid IP address: the library accepts it. *)
Definition valid_ip (x : string) : Prop := exists ip, ip_address x = Ok ip.

(** [a < b] on two networks of one version, where it cannot raise. *)
Definition Network_ltb (a b : Network) : bool :=
  if negb (Address_eqb (network_address a) (network_address b))
  then _ip (network_address a) <? _ip (network_address b)
  else if negb (Address_eqb (netmask a) (netmask b))
  then _ip (netmask a) <? _ip (netmask b)
  else false.

Fixpoint insert_by (x : Network) (l : list Network) : list Network :=
  match l with
  | [] => [x]
  | y :: l' => if Network_ltb y x then y :: insert_by x l' else x :: l
  end.

(** The stable insertion sort by [Network_ltb]. *)
Fixpoint sort_by (l : list Network) : list Network :=
  match l with
  | [] => []
  | x :: l' => insert_by x (sort_by l')
  end.

(** What [_sort_networks] returns when no comparison raises. *)
Definition sorted_networks (s : list Network) : list Network :=
  sort_by (filter (has_version 4) s) ++ sort_by (filter (has_version 6) s).

(** The [ValueError] text of [ip_address] for the argument [x]. *)
Definition invalid_ip_message (x : string) : string :=
  (Repr.repr x ++ " does not appear to be an IPv4 or IPv6 address")%string.

(** The line [export_to_format] prints when it is done. *)
Definition exported_line (st : state) (output_file format_type : string) : event :=
  Print ("Exported " ++ Str.of_int (Z.of_nat (List.length (blocked_ips st)))
         ++ " entries to " ++ output_file ++ " (" ++ format_type ++ " format)")%string.





(** As the specification words it: an export with a format outside the
    enumeration ends in an error. *)
Definition unknown_format_is_an_error : Prop :=
  forall st output_file format_type,
    reachable st -> ~ In format_type format_choices ->
    exists e, fst (export_to_format output_file format_type st) = Raise e.

(** [a] covers [b], in the words of the specification: same family, the
    prefix of [a] is not longer, and the base of [b] masked to the prefix
    of [a] is the base of [a]. *)
Definition covers (a b : Network) : bool :=
  Version_eqb (version a) (version b)
  && (_prefixlen a <=? _prefixlen b)
  && (Z.land (_ip (network_address b)) (_ip (netmask a))
      =? _ip (network_address a)).

(** 10.0.0.0/8, 10.1.0.0/16 and 10.1.2.3/32 as network objects. *)
Definition net_10_8 : Network :=
  mkNetwork (mkAddress V4 167772160 None) (mkAddress V4 4278190080 None) 8.
Definition net_10_1_16 : Network :=
  mkNetwork (mkAddress V4 167837696 None) (mkAddress V4 4294901760 None) 16.
Definition net_10_1_2_3 : Network :=
  mkNetwork (mkAddress V4 167838211 None) (mkAddress V4 4294967295 None) 32.

(** The manager after loading one file with the given lines. *)
Definition loaded (lines : list string) : state :=
  snd (load_blocklist "blocklist.txt" (Some lines) init).

(** As the specification words it: the covered /32 is dropped, and so is
    every new entry that a stored entry covers. *)
Definition covered_scenario_keeps_one_entry : Prop :=
  blocked_ips (loaded ["10.0.0.0/8"; "10.1.2.3/32"]) = [net_10_8].

Definition covered_entry_is_dropped : Prop :=
  forall st n,
    reachable st -> wf_network n ->
    (exists e, In e (blocked_ips st) /\ covers e n = true) ->
    blocked_ips (snd (blocked_ips_add n st)) = blocked_ips st.

(** As the specification words it: the entry a query returns has the
    greatest prefix length among the stored entries that contain the
    address. *)
Definition longest_prefix_match : Prop :=
  forall st x r,
    reachable st -> fst (is_blocked x st) = Ok (true, r) ->
    exists ip e,
      ip_address x = Ok ip /\ In e (blocked_ips st) /\ r = Network_str e
      /\ forall e', In e' (blocked_ips st) -> Network_contains e' ip = true ->
                    _prefixlen e' <= _prefixlen e.

(** As the specification words it: a query takes at most as many steps as
    the address has bits. *)
Definition steps_bounded_by_bit_length : Prop :=
  forall st x ip,
    reachable st -> ip_address x = Ok ip ->
    is_blocked_steps x st <= _max_prefixlen (_version ip).

(** The lines 10.0.0.0, 10.0.0.1, ... : [count] single addresses. *)
Definition host_lines (count : nat) : list string :=
  map (fun k => ("10.0.0." ++ Str.of_int (Z.of_nat k))%string) (seq 0 count).

(** The canonical order of the specification: family first, then the
    numeric base address, then the prefix length. *)
Definition key_lt (a b : Network) : Prop :=
  _ip (network_address a) < _ip (network_address b)
  \/ (_ip (network_address a) = _ip (network_address b)
      /\ _prefixlen a < _prefixlen b).

Definition key_le (a b : Network) : Prop :=
  _ip (network_address a) < _ip (network_address b)
  \/ (_ip (network_address a) = _ip (network_address b)
      /\ _prefixlen a <= _prefixlen b).

Definition entry_le (a b : Network) : Prop :=
  version_number (version a) < version_number (version b)
  \/ (version a = version b /\ key_le a b).

(** No two entries of one family share a base address and differ in the
    zone identifier. *)
Definition zone_consistent (s : list Network) : Prop :=
  forall a b,
    In a s -> In b s -> version a = version b ->
    _ip (network_address a) = _ip (network_address b) ->
    _scope_id (network_address a) = _scope_id (network_address b).

(** As the specification words it: the exported sequence is in canonical
    order, and it is the same for every order of insertion. *)
Definition export_order_is_canonical : Prop :=
  forall lines1 lines2,
    Permutation lines1 lines2 ->
    exists out,
      fst (_sort_networks (loaded lines1)) = Ok out
      /\ fst (_sort_networks (loaded lines2)) = Ok out
      /\ StronglySorted entry_le out.

(** * Properties *)

(** ** Which exceptions the library functions raise *)

Ltac raises :=
  repeat match goal with
  | H : Raise _ = Raise _ |- _ => inversion H; subst; clear H
  | H : Ok _ = Raise _ |- _ => discriminate H
  | H : or_raise _ ?o = Raise _ |- _ => destruct o; simpl in H
  | H : bind ?r _ = Raise _ |- _ =>
      let E := fresh "E" in destruct r eqn:E; simpl in H
  | H : (if ?b then _ else _) = Raise _ |- _ => destruct b
  | H : match ?x with _ => _ end = Raise _ |- _ => destruct x eqn:?
  end; try reflexivity; try congruence.

Lemma v4_ip_int_raises s e :
  _BaseV4._ip_int_from_string s = Raise e -> e = AddressValueError.
Proof. unfold _BaseV4._ip_int_from_string. intros H. raises. Qed.

Lemma IPv4Address_raises s e : IPv4Address s = Raise e -> e = AddressValueError.
Proof.
  unfold IPv4Address. intros H. raises. eauto using v4_ip_int_raises.
Qed.

Lemma v6_ip_int_raises s e :
  _BaseV6._ip_int_from_string s = Raise e -> e = AddressValueError.
Proof.
  unfold _BaseV6._ip_int_from_string. intros H. raises.
  eauto using IPv4Address_raises.
Qed.

Lemma IPv6Address_raises s e : IPv6Address s = Raise e -> e = AddressValueError.
Proof.
  unfold IPv6Address, _BaseV6._split_scope_id. intros H. raises.
  eauto using v6_ip_int_raises.
Qed.

(** [ip_address] raises nothing but the ValueError it builds itself. *)
Lemma ip_address_raises s e :
  ip_address s = Raise e ->
  e = ValueError (Repr.repr s ++ " does not appear to be an IPv4 or IPv6 address")%string.
Proof.
  unfold ip_address, except_address_netmask. intros H.
  destruct (IPv4Address s) eqn:E4; [discriminate|].
  apply IPv4Address_raises in E4; subst.
  destruct (IPv6Address s) eqn:E6; [discriminate|].
  apply IPv6Address_raises in E6; subst. congruence.
Qed.

Lemma Address_of_int_raises cls n e :
  Address_of_int cls n = Raise e -> e = AddressValueError.
Proof. unfold Address_of_int, _check_int_address. intros H. raises. Qed.

Lemma prefix_from_prefix_string_raises cls s e :
  _prefix_from_prefix_string cls s = Raise e -> e = NetmaskValueError.
Proof. unfold _prefix_from_prefix_string. intros H. raises. Qed.

Lemma make_netmask_v4_raises arg e :
  _make_netmask_v4 arg = Raise e -> address_or_netmask e.
Proof.
  unfold _make_netmask_v4, _prefix_from_ip_string, address_or_netmask.
  intros H. raises; auto.
  all: try (match goal with
            | H : _BaseV4._ip_int_from_string _ = Raise _ |- _ =>
                apply v4_ip_int_raises in H; discriminate H
            end).
  all: try (match goal with
            | H : Address_of_int _ _ = Raise _ |- _ =>
                apply Address_of_int_raises in H; auto
            end).
  all: match goal with
       | H : _prefix_from_prefix_string _ _ = Raise _ |- _ =>
           apply prefix_from_prefix_string_raises in H; try discriminate H; auto
       end.
Qed.

Lemma make_netmask_v6_raises arg e :
  _make_netmask_v6 arg = Raise e -> address_or_netmask e.
Proof.
  unfold _make_netmask_v6, address_or_netmask. intros H. raises; auto.
  all: try (match goal with
            | H : Address_of_int _ _ = Raise _ |- _ =>
                apply Address_of_int_raises in H; auto
            end).
  all: match goal with
       | H : _prefix_from_prefix_string _ _ = Raise _ |- _ =>
           apply prefix_from_prefix_string_raises in H; auto
       end.
Qed.

Lemma split_addr_prefix_raises cls s e :
  _split_addr_prefix cls s = Raise e -> e = AddressValueError.
Proof.
  unfold _split_addr_prefix, _split_optional_netmask. intros H. raises.
Qed.

Lemma IPv4Network_raises s e :
  IPv4Network s false = Raise e -> address_or_netmask e.
Proof.
  unfold IPv4Network. intros H. raises.
  all: try (match goal with
            | H : Address_of_int _ _ = Raise _ |- _ =>
                apply Address_of_int_raises in H; left; auto
            end).
  - eauto using make_netmask_v4_raises.
  - left; eauto using IPv4Address_raises.
  - left; eauto using split_addr_prefix_raises.
Qed.

Lemma IPv6Network_raises s e :
  IPv6Network s false = Raise e -> address_or_netmask e.
Proof.
  unfold IPv6Network. intros H. raises.
  all: try (match goal with
            | H : Address_of_int _ _ = Raise _ |- _ =>
                apply Address_of_int_raises in H; left; auto
            end).
  - eauto using make_netmask_v6_raises.
  - left; eauto using IPv6Address_raises.
  - left; eauto using split_addr_prefix_raises.
Qed.

(** [ip_network] without [strict] raises nothing but the ValueError it
    builds itself. *)
Lemma ip_network_raises s e :
  ip_network s false = Raise e ->
  e = ValueError (Repr.repr s ++ " does not appear to be an IPv4 or IPv6 network")%string.
Proof.
  unfold ip_network, except_address_netmask. intros H.
  destruct (IPv4Network s false) eqn:E4; [discriminate|].
  apply IPv4Network_raises in E4. 
  destruct (IPv6Network s false) eqn:E6.
  - destruct E4; subst; discriminate.
  - apply IPv6Network_raises in E6.
    destruct E4, E6; subst; congruence.
Qed.

(** ** Loading a blocklist *)

Lemma Network_eqb_refl n : Network_eqb n n = true.
Proof.
  unfold Network_eqb, Address_eqb, scope_eqb, version.
  destruct (network_address n) as [v ip sc]. cbn.
  rewrite !Z.eqb_refl. destruct v, sc; cbn; rewrite ?String.eqb_refl; reflexivity.
Qed.





(** The loop, in closed form: it never raises, it counts and adds the
    entries of the lines, and it prints the warnings of the malformed ones. *)
Lemma load_lines_spec lines : forall line_num count st,
  load_lines line_num lines count st =
  (Ok (count + Z.of_nat (List.length (entries lines))),
   mkState (fold_left (fun s n => set_add n s) (entries lines) (blocked_ips st))
           (trace st ++ warnings line_num lines)).
Proof.
  induction lines as [|line rest IH]; intros line_num count st.
  - simpl. unfold ret. rewrite Z.add_0_r, app_nil_r. destruct st; reflexivity.
  - cbn [load_lines entries warnings]. unfold entry_of, malformed.
    destruct (String.eqb (Str.strip line) "" || Str.startswith "#" (Str.strip line)) eqn:Eskip.
    + simpl. apply IH.
    + simpl negb. rewrite andb_true_l.
      destruct (ip_network (Str.strip line) false) as [network|e] eqn:Enet.
      * unfold mbind, blocked_ips_add. rewrite IH. cbn [blocked_ips trace fold_left List.length].
        f_equal. f_equal. lia.
      * pose proof (ip_network_raises _ _ Enet) as ->.
        cbn [is_ValueError exn_str]. unfold mbind, print. rewrite IH.
        cbn [blocked_ips trace]. unfold warning. rewrite <- app_assoc. reflexivity.
Qed.





(** ** Netmasks and address ranges *)

Lemma Z_land_le_r a b : 0 <= b -> Z.land a b <= b.
Proof.
  intros Hb.
  assert (H : b = Z.ldiff b a + Z.land b a).
  { rewrite Z.add_nocarry_lxor, Z.lxor_lor, Z.lor_ldiff_and; auto.
    - rewrite (Z.land_comm b a) at 1. rewrite Z.land_assoc, Z.land_ldiff. reflexivity.
    - rewrite (Z.land_comm b a). rewrite Z.land_assoc, Z.land_ldiff. reflexivity. }
  assert (0 <= Z.ldiff b a) by (apply Z.ldiff_nonneg; auto).
  rewrite (Z.land_comm a b). lia.
Qed.

Lemma ALL_ONES_ones cls : _ALL_ONES cls = Z.ones (_max_prefixlen cls).
Proof. unfold _ALL_ONES. rewrite Z.ones_equiv. lia. Qed.

Lemma max_prefixlen_pos cls : 0 < _max_prefixlen cls.
Proof. destruct cls; reflexivity. Qed.

(** The netmask of prefix length [p] has ones exactly at the bits from
    [w - p] up to [w - 1]. *)
Lemma testbit_netmask cls p i :
  0 <= p <= _max_prefixlen cls -> 0 <= i ->
  Z.testbit (_ip_int_from_prefix cls p) i
  = (_max_prefixlen cls - p <=? i) && (i <? _max_prefixlen cls).
Proof.
  intros Hp Hi. unfold _ip_int_from_prefix. rewrite ALL_ONES_ones.
  pose proof (max_prefixlen_pos cls).
  rewrite Z.lxor_spec, Z.shiftr_spec by lia.
  rewrite !Z.testbit_ones_nonneg by lia.
  destruct (Z.ltb_spec i (_max_prefixlen cls)), (Z.ltb_spec (i + p) (_max_prefixlen cls)),
    (Z.leb_spec (_max_prefixlen cls - p) i); simpl; try reflexivity; lia.
Qed.

Lemma netmask_land cls p x :
  0 <= p <= _max_prefixlen cls -> 0 <= x <= _ALL_ONES cls ->
  Z.land x (_ip_int_from_prefix cls p)
  = Z.ldiff x (Z.ones (_max_prefixlen cls - p)).
Proof.
  intros Hp Hx. pose proof (max_prefixlen_pos cls).
  assert (Hx' : x = Z.land x (Z.ones (_max_prefixlen cls))).
  { rewrite Z.land_ones by lia. rewrite Z.mod_small; [reflexivity|].
    unfold _ALL_ONES in Hx. lia. }
  rewrite Hx'. apply Z.bits_inj'. intros i Hi.
  rewrite Z.land_spec, Z.ldiff_spec, Z.land_spec, testbit_netmask by lia.
  rewrite !Z.testbit_ones_nonneg by lia.
  destruct (Z.testbit x i), (Z.ltb_spec i (_max_prefixlen cls)),
    (Z.ltb_spec i (_max_prefixlen cls - p)),
    (Z.leb_spec (_max_prefixlen cls - p) i); simpl; try reflexivity; lia.
Qed.

Lemma ldiff_ones_div x k : 0 <= k -> Z.ldiff x (Z.ones k) = 2 ^ k * (x / 2 ^ k).
Proof.
  intros Hk. rewrite Z.ldiff_ones_r, Z.shiftl_mul_pow2, Z.shiftr_div_pow2 by lia.
  lia.
Qed.

(** Containment, numerically: [x & netmask == base] puts [x] among the
    [2 ^ (w - p)] addresses that start at [base]. *)
Lemma netmask_land_range cls p x base :
  0 <= p <= _max_prefixlen cls -> 0 <= x <= _ALL_ONES cls ->
  Z.land x (_ip_int_from_prefix cls p) = base ->
  base <= x < base + 2 ^ (_max_prefixlen cls - p).
Proof.
  intros Hp Hx <-. rewrite netmask_land, ldiff_ones_div by lia.
  assert (0 < 2 ^ (_max_prefixlen cls - p)) by (apply Z.pow_pos_nonneg; lia).
  pose proof (Z.div_mod x (2 ^ (_max_prefixlen cls - p)) ltac:(lia)).
  pose proof (Z.mod_pos_bound x (2 ^ (_max_prefixlen cls - p)) ltac:(lia)).
  lia.
Qed.

Lemma netmask_bounds cls p :
  0 <= p <= _max_prefixlen cls ->
  0 <= _ip_int_from_prefix cls p <= _ALL_ONES cls.
Proof.
  intros Hp. pose proof (max_prefixlen_pos cls).
  assert (H0 : 0 <= _ALL_ONES cls).
  { unfold _ALL_ONES. assert (0 < 2 ^ _max_prefixlen cls) by (apply Z.pow_pos_nonneg; lia). lia. }
  assert (Hm : _ip_int_from_prefix cls p = Z.land (_ip_int_from_prefix cls p) (_ALL_ONES cls)).
  { rewrite ALL_ONES_ones. apply Z.bits_inj'. intros i Hi.
    rewrite Z.land_spec, testbit_netmask, Z.testbit_ones_nonneg by lia.
    destruct (Z.ltb_spec i (_max_prefixlen cls)),
      (Z.leb_spec (_max_prefixlen cls - p) i); reflexivity. }
  rewrite Hm. split; [apply Z.land_nonneg; right; exact H0 | apply Z_land_le_r, H0].
Qed.

(** The mask of a longer prefix is the larger number, so the mask decides
    the prefix length. *)
Lemma netmask_closed_form cls p :
  0 <= p <= _max_prefixlen cls ->
  _ip_int_from_prefix cls p = 2 ^ _max_prefixlen cls - 2 ^ (_max_prefixlen cls - p).
Proof.
  intros Hp. pose proof (max_prefixlen_pos cls).
  pose proof (netmask_bounds cls p Hp) as Hb.
  pose proof (netmask_land cls p (_ALL_ONES cls) Hp ltac:(unfold _ALL_ONES in *; lia)) as H1.
  assert (H2 : Z.land (_ALL_ONES cls) (_ip_int_from_prefix cls p) = _ip_int_from_prefix cls p).
  { rewrite ALL_ONES_ones. apply Z.bits_inj'. intros i Hi.
    rewrite Z.land_spec, testbit_netmask, Z.testbit_ones_nonneg by lia.
    destruct (Z.ltb_spec i (_max_prefixlen cls)),
      (Z.leb_spec (_max_prefixlen cls - p) i); reflexivity. }
  rewrite H2, ldiff_ones_div in H1 by lia. rewrite H1.
  unfold _ALL_ONES.
  replace (2 ^ _max_prefixlen cls)
    with (2 ^ (_max_prefixlen cls - p) * 2 ^ p)
    by (rewrite <- Z.pow_add_r by lia; f_equal; lia).
  assert (0 < 2 ^ (_max_prefixlen cls - p)) by (apply Z.pow_pos_nonneg; lia).
  assert (0 < 2 ^ p) by (apply Z.pow_pos_nonneg; lia).
  replace ((2 ^ (_max_prefixlen cls - p) * 2 ^ p - 1) / 2 ^ (_max_prefixlen cls - p))
    with (2 ^ p - 1).
  - lia.
  - apply Z.div_unique with (r := 2 ^ (_max_prefixlen cls - p) - 1); lia.
Qed.

Lemma netmask_lt cls p q :
  0 <= p <= _max_prefixlen cls -> 0 <= q <= _max_prefixlen cls ->
  (_ip_int_from_prefix cls p < _ip_int_from_prefix cls q <-> p < q).
Proof.
  intros Hp Hq. rewrite !netmask_closed_form by assumption.
  split; intros H.
  - destruct (Z_lt_le_dec p q) as [|Hge]; [assumption|exfalso].
    assert (2 ^ (_max_prefixlen cls - p) <= 2 ^ (_max_prefixlen cls - q))
      by (apply Z.pow_le_mono_r; lia). lia.
  - assert (2 ^ (_max_prefixlen cls - q) < 2 ^ (_max_prefixlen cls - p))
      by (apply Z.pow_lt_mono_r; lia). lia.
Qed.

Lemma netmask_inj cls p q :
  0 <= p <= _max_prefixlen cls -> 0 <= q <= _max_prefixlen cls ->
  _ip_int_from_prefix cls p = _ip_int_from_prefix cls q -> p = q.
Proof.
  intros Hp Hq H.
  pose proof (netmask_lt cls p q Hp Hq). pose proof (netmask_lt cls q p Hq Hp). lia.
Qed.

(** ** Every network object that [ip_network] builds is well formed *)

Ltac oks :=
  repeat match goal with
  | H : Ok _ = Ok _ |- _ => inversion H; subst; clear H
  | H : Raise _ = Ok _ |- _ => discriminate H
  | H : or_raise _ ?o = Ok _ |- _ => destruct o eqn:?; simpl in H
  | H : bind ?r _ = Ok _ |- _ =>
      let E := fresh "E" in destruct r eqn:E; simpl in H
  | H : (if ?b then _ else _) = Ok _ |- _ => destruct b eqn:?
  | H : match ?x with _ => _ end = Ok _ |- _ => destruct x eqn:?
  end.

Lemma Address_of_int_ok cls z a :
  Address_of_int cls z = Ok a ->
  a = mkAddress cls z None /\ 0 <= z <= _ALL_ONES cls.
Proof.
  unfold Address_of_int, _check_int_address. intros H. oks. split; [reflexivity|lia].
Qed.

Lemma count_righthand_zero_bits_range number bits :
  0 <= bits -> 0 <= _count_righthand_zero_bits number bits <= bits.
Proof.
  intros Hb. unfold _count_righthand_zero_bits, bit_length.
  destruct (number =? 0); [lia|].
  destruct (_ =? 0); [lia|].
  pose proof (Z.log2_nonneg (Z.land (Z.lnot number) (number - 1))). lia.
Qed.

Lemma prefix_from_ip_int_range cls ip_int p :
  _prefix_from_ip_int cls ip_int = Some p -> 0 <= p <= _max_prefixlen cls.
Proof.
  unfold _prefix_from_ip_int. intros H.
  pose proof (max_prefixlen_pos cls).
  pose proof (count_righthand_zero_bits_range ip_int (_max_prefixlen cls) ltac:(lia)).
  destruct (negb _); [discriminate|]. injection H as <-. lia.
Qed.

Lemma prefix_from_prefix_string_range cls s p :
  _prefix_from_prefix_string cls s = Ok p -> 0 <= p <= _max_prefixlen cls.
Proof.
  unfold _prefix_from_prefix_string. intros H. oks.
  match goal with H : negb (_ && _) = false |- _ =>
    apply negb_false_iff, andb_true_iff in H; destruct H end.
  lia.
Qed.

Lemma make_netmask_v4_ok arg m :
  _make_netmask_v4 arg = Ok m ->
  0 <= snd m <= _max_prefixlen V4
  /\ fst m = mkAddress V4 (_ip_int_from_prefix V4 (snd m)) None.
Proof.
  unfold _make_netmask_v4. intros H.
  unfold bind at 1 in H.
  match type of H with match ?x with _ => _ end = _ =>
    destruct x as [p|] eqn:Ep; [|discriminate] end.
  unfold bind in H. destruct (Address_of_int V4 _) as [a|] eqn:Ea; [|discriminate].
  injection H as <-. apply Address_of_int_ok in Ea as [-> _]. cbn [fst snd].
  split; [|reflexivity].
  destruct arg as [s|n].
  - destruct (_prefix_from_prefix_string V4 s) eqn:E1.
    + injection Ep as <-. eapply prefix_from_prefix_string_range; eauto.
    + assert (Hip : _prefix_from_ip_string V4 _BaseV4._ip_int_from_string s = Ok p)
        by (destruct e; try discriminate; exact Ep).
      clear Ep. unfold _prefix_from_ip_string in Hip. oks;
        eauto using prefix_from_ip_int_range.
  - destruct (negb _) eqn:E; [discriminate|]. injection Ep as <-.
    apply negb_false_iff, andb_true_iff in E. lia.
Qed.

Lemma make_netmask_v6_ok arg m :
  _make_netmask_v6 arg = Ok m ->
  0 <= snd m <= _max_prefixlen V6
  /\ fst m = mkAddress V6 (_ip_int_from_prefix V6 (snd m)) None.
Proof.
  unfold _make_netmask_v6. intros H.
  unfold bind at 1 in H.
  match type of H with match ?x with _ => _ end = _ =>
    destruct x as [p|] eqn:Ep; [|discriminate] end.
  unfold bind in H. destruct (Address_of_int V6 _) as [a|] eqn:Ea; [|discriminate].
  injection H as <-. apply Address_of_int_ok in Ea as [-> _]. cbn [fst snd].
  split; [|reflexivity].
  destruct arg as [s|n].
  - eapply prefix_from_prefix_string_range; eauto.
  - destruct (negb _) eqn:E; [discriminate|]. injection Ep as <-.
    apply negb_false_iff, andb_true_iff in E. lia.
Qed.

Lemma IPv4Address_ok s a :
  IPv4Address s = Ok a -> _version a = V4 /\ _scope_id a = None.
Proof. unfold IPv4Address. intros H. oks. split; reflexivity. Qed.

Lemma IPv6Address_ok s a : IPv6Address s = Ok a -> _version a = V6.
Proof. unfold IPv6Address. intros H. oks. reflexivity. Qed.

(** The last step of both network constructors. *)
Lemma masked_network_wf cls (a a' : Address) p :
  _version a = cls -> (cls = V4 -> _scope_id a = None) ->
  0 <= p <= _max_prefixlen cls ->
  (if negb (Z.land (_ip a) (_ip_int_from_prefix cls p) =? _ip a)
   then Address_of_int cls (Z.land (_ip a) (_ip_int_from_prefix cls p))
   else Ok a) = Ok a' ->
  wf_network (mkNetwork a' (mkAddress cls (_ip_int_from_prefix cls p) None) p).
Proof.
  intros Hv Hs Hp H. pose proof (netmask_bounds cls p Hp) as Hm.
  destruct (negb _) eqn:E.
  - apply Address_of_int_ok in H as [-> Hb].
    constructor; cbn; auto.
    rewrite <- Z.land_assoc, Z.land_diag. reflexivity.
  - injection H as <-. apply negb_false_iff, Z.eqb_eq in E.
    constructor; cbn; unfold version; cbn; rewrite ?Hv; auto.
    rewrite <- E. split; [apply Z.land_nonneg; right; lia|].
    etransitivity; [apply Z_land_le_r|]; lia.
Qed.

Lemma IPv4Network_wf s n : IPv4Network s false = Ok n -> wf_network n.
Proof.
  unfold IPv4Network. intros H.
  unfold bind at 1 in H. destruct (_split_addr_prefix V4 s) as [p|]; [|discriminate].
  unfold bind at 1 in H. destruct (IPv4Address (fst p)) as [a|] eqn:Ea; [|discriminate].
  unfold bind at 1 in H. destruct (_make_netmask_v4 (snd p)) as [m|] eqn:Em; [|discriminate].
  apply IPv4Address_ok in Ea as [Hv Hs].
  apply make_netmask_v4_ok in Em as [Hp Hm]. rewrite Hm in H. cbn [_ip] in H.
  unfold bind in H.
  match type of H with match ?x with _ => _ end = _ =>
    destruct x as [a'|] eqn:Ea'; [|discriminate] end.
  injection H as <-. eapply masked_network_wf; eauto.
Qed.

Lemma IPv6Network_wf s n : IPv6Network s false = Ok n -> wf_network n.
Proof.
  unfold IPv6Network. intros H.
  unfold bind at 1 in H. destruct (_split_addr_prefix V6 s) as [p|]; [|discriminate].
  unfold bind at 1 in H. destruct (IPv6Address (fst p)) as [a|] eqn:Ea; [|discriminate].
  unfold bind at 1 in H. destruct (_make_netmask_v6 (snd p)) as [m|] eqn:Em; [|discriminate].
  apply IPv6Address_ok in Ea.
  apply make_netmask_v6_ok in Em as [Hp Hm]. rewrite Hm in H. cbn [_ip] in H.
  unfold bind in H.
  match type of H with match ?x with _ => _ end = _ =>
    destruct x as [a'|] eqn:Ea'; [|discriminate] end.
  injection H as <-. eapply masked_network_wf; eauto. discriminate.
Qed.

Lemma ip_network_wf s n : ip_network s false = Ok n -> wf_network n.
Proof.
  unfold ip_network, except_address_netmask. intros H.
  destruct (IPv4Network s false) as [n4|e4] eqn:E4.
  - injection H as <-. eauto using IPv4Network_wf.
  - destruct (IPv6Network s false) as [n6|e6] eqn:E6.
    + assert (n6 = n) by (destruct e4; congruence). subst.
      eauto using IPv6Network_wf.
    + destruct e4, e6; discriminate.
Qed.

Lemma entry_of_wf line n : entry_of line = Some n -> wf_network n.
Proof.
  unfold entry_of. intros H.
  destruct (_ || _); [discriminate|].
  destruct (ip_network _ false) eqn:E; [|discriminate].
  injection H as <-. eauto using ip_network_wf.
Qed.

Lemma entries_wf lines : Forall wf_network (entries lines).
Proof.
  induction lines as [|line rest IH]; simpl; [constructor|].
  destruct (entry_of line) eqn:E; [constructor|]; eauto using entry_of_wf.
Qed.

Lemma set_add_wf n s :
  wf_network n -> Forall wf_network s -> Forall wf_network (set_add n s).
Proof.
  intros Hn Hs. unfold set_add. destruct (existsb _ s); [exact Hs|].
  apply Forall_app. split; [exact Hs|]. constructor; [exact Hn|constructor].
Qed.

Lemma fold_set_add_wf l s :
  Forall wf_network l -> Forall wf_network s ->
  Forall wf_network (fold_left (fun s n => set_add n s) l s).
Proof.
  revert s. induction l as [|n l IH]; simpl; intros s Hl Hs; [exact Hs|].
  inversion Hl; subst. apply IH; [assumption|]. apply set_add_wf; assumption.
Qed.

(** ** Sorting never raises on the networks of one version *)

Lemma Version_eqb_eq a b : Version_eqb a b = true <-> a = b.
Proof. destruct a, b; simpl; split; congruence. Qed.

Lemma Network_lt_ltb a b :
  wf_network a -> wf_network b -> version a = version b ->
  Network_lt a b = Ok (Network_ltb a b).
Proof.
  intros Ha Hb Hv. unfold Network_lt, Network_ltb, Address_lt.
  rewrite (wf_mask_version _ Ha), (wf_mask_version _ Hb).
  fold (version a) (version b). rewrite Hv.
  assert (Version_eqb (version b) (version b) = true) as -> by (apply Version_eqb_eq; reflexivity).
  simpl.
  destruct (negb (Address_eqb (network_address a) (network_address b))).
  - destruct (Z.eqb_spec (_ip (network_address a)) (_ip (network_address b))) as [->|];
      simpl; [rewrite Z.ltb_irrefl|]; reflexivity.
  - destruct (negb (Address_eqb (netmask a) (netmask b))); [|reflexivity].
    destruct (Z.eqb_spec (_ip (netmask a)) (_ip (netmask b))) as [->|];
      simpl; [rewrite Z.ltb_irrefl|]; reflexivity.
Qed.

Lemma insert_by_Forall (P : Network -> Prop) x l :
  P x -> Forall P l -> Forall P (insert_by x l).
Proof.
  intros Hx. induction 1 as [|y l Hy Hl IH]; simpl.
  - constructor; [exact Hx|constructor].
  - destruct (Network_ltb y x); constructor; auto.
Qed.

Lemma sort_by_Forall (P : Network -> Prop) l :
  Forall P l -> Forall P (sort_by l).
Proof.
  induction 1; simpl; [constructor|]. apply insert_by_Forall; assumption.
Qed.

Lemma insert_by_perm x l : Permutation (insert_by x l) (x :: l).
Proof.
  induction l as [|y l IH]; simpl; [reflexivity|].
  destruct (Network_ltb y x); [|reflexivity].
  rewrite IH. apply perm_swap.
Qed.

Lemma sort_by_perm l : Permutation (sort_by l) l.
Proof.
  induction l as [|x l IH]; simpl; [reflexivity|].
  rewrite insert_by_perm. constructor. exact IH.
Qed.

Lemma insert_sorted_pure v x l :
  wf_network x -> version x = v ->
  Forall (fun n => wf_network n /\ version n = v) l ->
  insert_sorted x l = Ok (insert_by x l).
Proof.
  intros Hx Hv. induction 1 as [|y l [Hy Hvy] Hl IH]; simpl; [reflexivity|].
  rewrite Network_lt_ltb by congruence. simpl.
  destruct (Network_ltb y x); [|reflexivity]. rewrite IH. reflexivity.
Qed.

Lemma sorted_pure v l :
  Forall (fun n => wf_network n /\ version n = v) l ->
  sorted l = Ok (sort_by l).
Proof.
  induction 1 as [|x l [Hx Hv] Hl IH]; simpl; [reflexivity|].
  rewrite IH. simpl. apply (insert_sorted_pure v); auto.
  apply sort_by_Forall. exact Hl.
Qed.

Lemma filter_version_Forall k v s :
  version_number v = k -> Forall wf_network s ->
  Forall (fun n => wf_network n /\ version n = v) (filter (has_version k) s).
Proof.
  intros Hk. induction 1 as [|n s Hn Hs IH]; simpl; [constructor|].
  unfold has_version at 1. destruct (Z.eqb_spec (version_number (version n)) k); [|exact IH].
  constructor; [|exact IH]. split; [exact Hn|].
  destruct (version n), v; simpl in *; subst; try reflexivity; discriminate.
Qed.

Lemma sort_networks_pure st :
  Forall wf_network (blocked_ips st) ->
  _sort_networks st = (Ok (sorted_networks (blocked_ips st)), st).
Proof.
  intros Hwf. unfold _sort_networks, sorted_networks.
  rewrite (sorted_pure V4) by (apply filter_version_Forall; auto).
  rewrite (sorted_pure V6) by (apply filter_version_Forall; auto).
  reflexivity.
Qed.

(** ** What the methods leave of the stored set *)

Lemma is_blocked_state x st : snd (is_blocked x st) = st.
Proof.
  unfold is_blocked. destruct (ip_address x) as [ip|e].
  - destruct (fst (scan ip (blocked_ips st))); reflexivity.
  - destruct (is_ValueError e); reflexivity.
Qed.

Lemma export_blocked_ips output_file format_type st :
  blocked_ips (snd (export_to_format output_file format_type st)) = blocked_ips st.
Proof.
  unfold export_to_format, mbind, _sort_networks.
  destruct (sorted (filter (has_version 4) (blocked_ips st))); [|reflexivity].
  destruct (sorted (filter (has_version 6) (blocked_ips st))); reflexivity.
Qed.

Lemma reachable_wf st : reachable st -> Forall wf_network (blocked_ips st).
Proof.
  induction 1 as [|filepath file st _ IH|x st _ IH|o f st _ IH|s st _ IH Hperm].
  - constructor.
  - destruct file as [lines|]; simpl; [|exact IH].
    rewrite load_lines_spec. cbn [snd blocked_ips].
    apply fold_set_add_wf; [apply entries_wf|exact IH].
  - rewrite is_blocked_state. exact IH.
  - rewrite export_blocked_ips. exact IH.
  - cbn [blocked_ips]. rewrite Hperm. exact IH.
Qed.

(** ** Queries with an invalid address *)

(** C10: a query never changes the state, and a string that is not a valid
    IP address makes [is_blocked] return, without raising, [False] and a
    text that starts with [Invalid IP:]. *)
Theorem is_blocked_invalid_ip x st :
  snd (is_blocked x st) = st
  /\ (~ valid_ip x ->
      fst (is_blocked x st)
      = Ok (false, ("Invalid IP: " ++ invalid_ip_message x)%string)).
Proof.
  split; [apply is_blocked_state|].
  intros Hbad. unfold is_blocked.
  destruct (ip_address x) as [ip|e] eqn:E.
  - exfalso. apply Hbad. exists ip. exact E.
  - apply ip_address_raises in E. subst e. reflexivity.
Qed.

Lemma is_blocked_invalid_ip_witness :
  fst (is_blocked "10.0.0.256" init)
  = Ok (false, "Invalid IP: '10.0.0.256' does not appear to be an IPv4 or IPv6 address").
Proof.
  apply (is_blocked_invalid_ip "10.0.0.256" init).
  intros [ip Hip]. vm_compute in Hip. discriminate Hip.
Defined.

(** ** Exporting *)

Lemma export_to_format_run output_file format_type st :
  Forall wf_network (blocked_ips st) ->
  export_to_format output_file format_type st
  = (Ok tt,
     mkState (blocked_ips st)
       (trace st
        ++ [WriteFile output_file
              (export_content format_type (sorted_networks (blocked_ips st))
                 (Z.of_nat (List.length (blocked_ips st))));
            exported_line st output_file format_type])).
Proof.
  intros Hwf. unfold export_to_format, mbind.
  rewrite sort_networks_pure by exact Hwf.
  unfold write_file, print, exported_line. cbn [blocked_ips trace].
  rewrite <- app_assoc. reflexivity.
Qed.

Lemma not_in_choices format_type :
  ~ In format_type format_choices ->
  String.eqb format_type "plain" = false
  /\ String.eqb format_type "iptables" = false
  /\ String.eqb format_type "nginx" = false
  /\ String.eqb format_type "apache" = false
  /\ String.eqb format_type "json" = false.
Proof.
  intros H. repeat split; apply String.eqb_neq; intros ->; apply H; simpl; auto 6.
Qed.

(** C3, as the code has it: the command line refuses a format outside the
    enumeration before any export is asked for, whereas [export_to_format]
    itself checks nothing: given such a format it returns normally, having
    written an empty file and printed its usual line. *)
Theorem export_unknown_format st output_file format_type :
  reachable st -> ~ In format_type format_choices ->
  main_export output_file (Some format_type) = None
  /\ export_to_format output_file format_type st
     = (Ok tt,
        mkState (blocked_ips st)
          (trace st ++ [WriteFile output_file "";
                        exported_line st output_file format_type])).
Proof.
  intros Hreach Hunknown. split.
  - unfold main_export, parse_format.
    destruct (existsb (String.eqb format_type) format_choices) eqn:E; [|reflexivity].
    apply existsb_exists in E as (c & Hc & Heq).
    apply String.eqb_eq in Heq. subst c. contradiction.
  - rewrite export_to_format_run by (apply reachable_wf, Hreach).
    unfold export_content.
    destruct (not_in_choices _ Hunknown) as (-> & -> & -> & -> & ->). reflexivity.
Qed.

Lemma export_unknown_format_witness :
  export_to_format "out.txt" "xml" init
  = (Ok tt, mkState [] [WriteFile "out.txt" "";
                        Print "Exported 0 entries to out.txt (xml format)"]).
Proof.
  apply (export_unknown_format init "out.txt" "xml").
  - apply reachable_init.
  - vm_compute. intuition discriminate.
Defined.

(** C3, as the specification words it, fails: asked for the format [xml],
    [export_to_format] returns normally. *)
Lemma export_unknown_format_not_refused : ~ unknown_format_is_an_error.
Proof.
  intros H.
  destruct (H init "out.txt" "xml" reachable_init) as [e He].
  - vm_compute. intuition discriminate.
  - vm_compute in He. discriminate He.
Qed.



(** ** Equality of network objects *)

Lemma scope_eqb_eq a b : scope_eqb a b = true <-> a = b.
Proof.
  destruct a, b; simpl; split; try congruence.
  - intros H. apply String.eqb_eq in H. congruence.
  - intros H. injection H as ->. apply String.eqb_refl.
Qed.

(** On well-formed networks Python's [==] is equality of the objects'
    contents: family, base address, zone identifier and prefix length. *)
Lemma Network_eqb_eq a b :
  wf_network a -> wf_network b -> (Network_eqb a b = true <-> a = b).
Proof.
  intros Ha Hb. split; [|intros ->; apply Network_eqb_refl].
  unfold Network_eqb, Address_eqb. intros H.
  apply andb_true_iff in H as [H Hm]. apply andb_true_iff in H as [Hv Ha'].
  apply andb_true_iff in Ha' as [Ha' Hs]. apply andb_true_iff in Ha' as [Hip _].
  apply Version_eqb_eq in Hv. apply Z.eqb_eq in Hip, Hm.
  pose proof (wf_mask _ Ha) as Hma. pose proof (wf_mask _ Hb) as Hmb.
  pose proof (wf_prefixlen _ Ha) as Hpa. pose proof (wf_prefixlen _ Hb) as Hpb.
  pose proof (wf_mask_version _ Ha) as Hva. pose proof (wf_mask_version _ Hb) as Hvb.
  pose proof (wf_mask_scope _ Ha) as Hsa. pose proof (wf_mask_scope _ Hb) as Hsb.
  pose proof (wf_v4_scope _ Ha) as H4a. pose proof (wf_v4_scope _ Hb) as H4b.
  rewrite <- Hv in *.
  assert (Hp : _prefixlen a = _prefixlen b)
    by (apply (netmask_inj (version a)); congruence).
  unfold version in *.
  destruct a as [[va ipa sa] [vma ipma sma] pa], b as [[vb ipb sb] [vmb ipmb smb] pb].
  cbn in *. subst.
  assert (sa = sb).
  { destruct vb; [rewrite H4a, H4b by reflexivity; reflexivity|].
    apply scope_eqb_eq, Hs. }
  subst. reflexivity.
Qed.

Lemma set_mem_In n s :
  wf_network n -> Forall wf_network s -> (set_mem n s = true <-> In n s).
Proof.
  intros Hn Hs. unfold set_mem. rewrite existsb_exists. split.
  - intros (m & Hin & Heq). rewrite Forall_forall in Hs.
    apply Network_eqb_eq in Heq; auto. subst. exact Hin.
  - intros Hin. exists n. split; [exact Hin|apply Network_eqb_refl].
Qed.

(** ** Inserting an entry that a stored entry covers *)

(** C2, as the code has it: the set is a plain set of network objects.
    A new entry leaves it unchanged exactly when an equal entry is stored,
    and is added otherwise, covered or not; loading 10.0.0.0/8 and then
    10.1.2.3/32 gives the two entries. *)
Theorem insert_drops_equal_entries_only st n :
  reachable st -> wf_network n ->
  (In n (blocked_ips st) ->
   blocked_ips (snd (blocked_ips_add n st)) = blocked_ips st)
  /\ (~ In n (blocked_ips st) ->
      blocked_ips (snd (blocked_ips_add n st)) = blocked_ips st ++ [n])
  /\ blocked_ips (loaded ["10.0.0.0/8"; "10.1.2.3/32"]) = [net_10_8; net_10_1_2_3].
Proof.
  intros Hreach Hn. pose proof (reachable_wf _ Hreach) as Hwf.
  pose proof (set_mem_In n (blocked_ips st) Hn Hwf) as Hmem.
  unfold blocked_ips_add, set_add. cbn [snd blocked_ips]. fold (set_mem n (blocked_ips st)).
  repeat split.
  - intros Hin. apply Hmem in Hin. rewrite Hin. reflexivity.
  - intros Hnot. destruct (set_mem n (blocked_ips st)) eqn:E; [|reflexivity].
    exfalso. apply Hnot, Hmem. reflexivity.
Qed.

Lemma insert_drops_equal_entries_only_witness :
  blocked_ips (snd (blocked_ips_add net_10_1_2_3 (loaded ["10.0.0.0/8"])))
  = [net_10_8; net_10_1_2_3]
  /\ blocked_ips (snd (blocked_ips_add net_10_8 (loaded ["10.0.0.0/8"])))
     = [net_10_8].
Proof.
  assert (Hwf : forall line n, entry_of line = Some n -> wf_network n)
    by exact entry_of_wf.
  split.
  - destruct (insert_drops_equal_entries_only (loaded ["10.0.0.0/8"]) net_10_1_2_3)
      as (_ & Hadd & _).
    + apply reachable_load, reachable_init.
    + apply (Hwf "10.1.2.3/32"). vm_compute. reflexivity.
    + apply Hadd. vm_compute. intuition discriminate.
  - destruct (insert_drops_equal_entries_only (loaded ["10.0.0.0/8"]) net_10_8)
      as (Hkeep & _ & _).
    + apply reachable_load, reachable_init.
    + apply (Hwf "10.0.0.0/8"). vm_compute. reflexivity.
    + apply Hkeep. vm_compute. auto.
Defined.

(** C2, as the specification words it, fails: after 10.0.0.0/8 the covered
    10.1.2.3/32 is stored as a second entry. *)
Lemma covered_entry_is_kept :
  ~ covered_scenario_keeps_one_entry /\ ~ covered_entry_is_dropped.
Proof.
  split.
  - unfold covered_scenario_keeps_one_entry. vm_compute. discriminate.
  - intros H.
    specialize (H (loaded ["10.0.0.0/8"]) net_10_1_2_3).
    assert (Hbad : blocked_ips (snd (blocked_ips_add net_10_1_2_3 (loaded ["10.0.0.0/8"])))
                   = blocked_ips (loaded ["10.0.0.0/8"])).
    { apply H.
      - apply reachable_load, reachable_init.
      - apply (entry_of_wf "10.1.2.3/32"). vm_compute. reflexivity.
      - exists net_10_8. split; vm_compute; auto. }
    vm_compute in Hbad. discriminate Hbad.
Qed.

(** ** The scan behind a query *)

Lemma scan_first_match ip networks e :
  fst (scan ip networks) = Some e ->
  exists pre post,
    networks = pre ++ e :: post
    /\ Network_contains e ip = true
    /\ Forall (fun n => Network_contains n ip = false) pre.
Proof.
  induction networks as [|n rest IH]; simpl; [discriminate|].
  destruct (Network_contains n ip) eqn:E.
  - simpl. intros H. injection H as <-. exists [], rest. auto.
  - destruct (scan ip rest) as [r steps] eqn:Es. simpl in *. intros H.
    destruct (IH H) as (pre & post & -> & Hc & Hpre).
    exists (n :: pre), post. auto.
Qed.

Lemma scan_no_match ip networks :
  fst (scan ip networks) = None ->
  Forall (fun n => Network_contains n ip = false) networks.
Proof.
  induction networks as [|n rest IH]; simpl; [constructor|].
  destruct (Network_contains n ip) eqn:E; [discriminate|].
  destruct (scan ip rest) as [r steps]. simpl in *. auto.
Qed.

Lemma scan_steps_bound ip networks :
  0 <= snd (scan ip networks) <= Z.of_nat (List.length networks).
Proof.
  induction networks as [|n rest IH]; [simpl; lia|].
  cbn [scan List.length]. rewrite Nat2Z.inj_succ.
  destruct (Network_contains n ip); [cbn [snd]; lia|].
  destruct (scan ip rest) as [r steps]. cbn [snd] in *. lia.
Qed.

Lemma scan_steps_no_match ip networks :
  Forall (fun n => Network_contains n ip = false) networks ->
  snd (scan ip networks) = Z.of_nat (List.length networks).
Proof.
  induction 1 as [|n rest Hn Hrest IH]; [reflexivity|].
  cbn [scan List.length]. rewrite Nat2Z.inj_succ, Hn.
  destruct (scan ip rest) as [r steps]. cbn [snd] in *. lia.
Qed.

(** What a positive answer of [is_blocked] comes from. *)
Lemma is_blocked_true x st r :
  fst (is_blocked x st) = Ok (true, r) ->
  exists ip e,
    ip_address x = Ok ip /\ fst (scan ip (blocked_ips st)) = Some e
    /\ r = Network_str e.
Proof.
  unfold is_blocked. destruct (ip_address x) as [ip|e] eqn:E.
  - destruct (fst (scan ip (blocked_ips st))) as [n|] eqn:Es; simpl; intros H.
    + injection H as <-. exists ip, n. auto.
    + discriminate.
  - destruct (is_ValueError e); simpl; discriminate.
Qed.

(** C1, as the code has it: a query walks the stored entries in the
    iteration order of the set and answers with the first one that contains
    the address, whatever its prefix length. *)
Theorem is_blocked_returns_first_match st x r :
  fst (is_blocked x st) = Ok (true, r) ->
  exists ip pre e post,
    ip_address x = Ok ip
    /\ blocked_ips st = pre ++ e :: post
    /\ r = Network_str e
    /\ Network_contains e ip = true
    /\ Forall (fun n => Network_contains n ip = false) pre.
Proof.
  intros H. destruct (is_blocked_true _ _ _ H) as (ip & e & Hip & Hscan & Hr).
  destruct (scan_first_match _ _ _ Hscan) as (pre & post & Hl & Hc & Hpre).
  exists ip, pre, e, post. auto.
Qed.

Lemma is_blocked_returns_first_match_witness :
  exists ip pre e post,
    ip_address "10.1.2.3" = Ok ip
    /\ blocked_ips (loaded ["192.168.0.0/16"; "10.0.0.0/8"; "10.1.0.0/16"])
       = pre ++ e :: post
    /\ "10.0.0.0/8" = Network_str e
    /\ Network_contains e ip = true
    /\ Forall (fun n => Network_contains n ip = false) pre.
Proof.
  apply (is_blocked_returns_first_match
           (loaded ["192.168.0.0/16"; "10.0.0.0/8"; "10.1.0.0/16"])
           "10.1.2.3" "10.0.0.0/8").
  vm_compute. reflexivity.
Defined.

(** C1, as the specification words it, fails: with 10.0.0.0/8 stored before
    10.1.0.0/16, the query 10.1.2.3 answers 10.0.0.0/8. *)
Lemma first_match_is_not_longest : ~ longest_prefix_match.
Proof.
  intros H.
  destruct (H (loaded ["10.0.0.0/8"; "10.1.0.0/16"]) "10.1.2.3" "10.0.0.0/8")
    as (ip & e & Hip & Hin & Hr & Hmax).
  - apply reachable_load, reachable_init.
  - vm_compute. reflexivity.
  - vm_compute in Hip. injection Hip as <-.
    assert (Hle : _prefixlen net_10_1_16 <= _prefixlen e).
    { apply Hmax; vm_compute; auto. }
    vm_compute in Hin. destruct Hin as [<-|[<-|[]]].
    + vm_compute in Hle. apply Hle. reflexivity.
    + vm_compute in Hr. discriminate Hr.
Qed.

Lemma scan_steps_first_match ip pre e post :
  Forall (fun n => Network_contains n ip = false) pre ->
  Network_contains e ip = true ->
  snd (scan ip (pre ++ e :: post)) = Z.of_nat (List.length pre) + 1.
Proof.
  intros Hpre He. induction Hpre as [|n pre Hn Hpre IH].
  - simpl. rewrite He. reflexivity.
  - cbn [app scan List.length]. rewrite Nat2Z.inj_succ, Hn.
    destruct (scan ip (pre ++ e :: post)) as [r steps]. cbn [snd] in *. lia.
Qed.

(** C9, as the code has it: a query makes one containment test per stored
    entry, in iteration order, until the first match.  The number of tests
    is at most the size of the set; it is the position of the entry
    returned when there is one, and the size of the set when no entry
    contains the address: it grows with the set and is not bounded by the
    bit length of the address. *)
Theorem is_blocked_steps_linear st x :
  0 <= is_blocked_steps x st <= Z.of_nat (List.length (blocked_ips st))
  /\ (forall r, fst (is_blocked x st) = Ok (true, r) ->
        exists pre e post,
          blocked_ips st = pre ++ e :: post /\ r = Network_str e
          /\ is_blocked_steps x st = Z.of_nat (List.length pre) + 1)
  /\ (forall ip, ip_address x = Ok ip ->
        fst (is_blocked x st) = Ok (false, "") ->
        is_blocked_steps x st = Z.of_nat (List.length (blocked_ips st))).
Proof.
  split; [|split].
  - unfold is_blocked_steps. destruct (ip_address x); [apply scan_steps_bound|lia].
  - intros r H. destruct (is_blocked_true _ _ _ H) as (ip & e & Hip & Hscan & Hr).
    destruct (scan_first_match _ _ _ Hscan) as (pre & post & Hl & Hc & Hpre).
    exists pre, e, post. repeat split; try assumption.
    unfold is_blocked_steps. rewrite Hip, Hl.
    apply scan_steps_first_match; assumption.
  - unfold is_blocked_steps, is_blocked.
    intros ip ->. destruct (fst (scan ip (blocked_ips st))) eqn:E; simpl.
    + discriminate.
    + intros _. apply scan_steps_no_match, scan_no_match, E.
Qed.

Lemma is_blocked_steps_linear_witness :
  is_blocked_steps "11.0.0.0" (loaded (host_lines 129)) = 129.
Proof.
  destruct (is_blocked_steps_linear (loaded (host_lines 129)) "11.0.0.0")
    as (_ & _ & Hall).
  rewrite (Hall (mkAddress V4 184549376 None)); vm_compute; reflexivity.
Defined.

(** C9, as the specification words it, fails: with 129 host addresses
    stored, the query 11.0.0.0 makes 129 containment tests. *)
Lemma steps_exceed_bit_length : ~ steps_bounded_by_bit_length.
Proof.
  intros H.
  specialize (H (loaded (host_lines 129)) "11.0.0.0" (mkAddress V4 184549376 None)).
  assert (Hbad : is_blocked_steps "11.0.0.0" (loaded (host_lines 129)) <= 32).
  { apply H; [apply reachable_load, reachable_init | vm_compute; reflexivity]. }
  vm_compute in Hbad. apply Hbad. reflexivity.
Qed.

(** ** The integers that parsing yields *)

Lemma is_digit_value c : Str.is_digit c = true -> 0 <= Str.hex_value c <= 9.
Proof.
  unfold Str.hex_value. intros H. rewrite H. unfold Str.is_digit in H.
  apply andb_true_iff in H as [H1 H2]. apply Z.leb_le in H1, H2. lia.
Qed.

Lemma is_hex_digit_value c : Str.is_hex_digit c = true -> 0 <= Str.hex_value c <= 15.
Proof.
  unfold Str.is_hex_digit, Str.hex_value. intros H.
  destruct (Str.is_digit c) eqn:Ed.
  - unfold Str.is_digit in Ed. apply andb_true_iff in Ed as [H1 H2].
    apply Z.leb_le in H1, H2. lia.
  - simpl in H. apply orb_true_iff in H as [H|H];
      apply andb_true_iff in H as [H1 H2]; apply Z.leb_le in H1, H2.
    + destruct (Z.leb_spec 97 (Str.ord c)); lia.
    + destruct (Z.leb_spec 97 (Str.ord c)); lia.
Qed.

Lemma digits_value_decimal_nonneg s : forall acc,
  Str.all_chars Str.is_digit s = true -> 0 <= acc ->
  0 <= Str.digits_value 10 acc s.
Proof.
  induction s as [|c s IH]; simpl; intros acc H Hacc; [exact Hacc|].
  apply andb_true_iff in H as [Hc Hs]. apply IH; [exact Hs|].
  pose proof (is_digit_value c Hc). lia.
Qed.

Lemma digits_value_hex_bound s : forall acc,
  Str.all_chars Str.is_hex_digit s = true -> 0 <= acc ->
  0 <= Str.digits_value 16 acc s < (acc + 1) * 16 ^ Z.of_nat (String.length s).
Proof.
  induction s as [|c s IH]; intros acc H Hacc.
  - simpl. lia.
  - cbn [Str.all_chars] in H. apply andb_true_iff in H as [Hc Hs].
    cbn [Str.digits_value String.length]. rewrite Nat2Z.inj_succ, Z.pow_succ_r by lia.
    pose proof (is_hex_digit_value c Hc).
    specialize (IH (acc * 16 + Str.hex_value c) Hs ltac:(lia)).
    assert (0 < 16 ^ Z.of_nat (String.length s)) by (apply Z.pow_pos_nonneg; lia).
    nia.
Qed.

Lemma parse_octet_range s v : _BaseV4._parse_octet s = Some v -> 0 <= v <= 255.
Proof.
  unfold _BaseV4._parse_octet, Str.int10, Str.isascii_isdigit. intros H.
  destruct (String.eqb s ""); [discriminate|]. simpl in H.
  destruct (Str.all_chars Str.is_digit s) eqn:Ed; simpl in H; [|discriminate].
  destruct (3 <? String.length s)%nat; [discriminate|].
  destruct (_ && _); [discriminate|].
  destruct (Str.max_str_digits <? String.length s)%nat; [discriminate|].
  destruct (Z.ltb_spec 255 (Str.digits_value 10 0 s)); [discriminate|].
  injection H as <-.
  pose proof (digits_value_decimal_nonneg s 0 Ed). lia.
Qed.

Lemma mapM_length {A B : Type} (f : A -> option B) l l' :
  mapM f l = Some l' -> List.length l = List.length l'.
Proof.
  revert l'. induction l as [|x l IH]; simpl; intros l' H.
  - injection H as <-. reflexivity.
  - destruct (f x); [|discriminate]. destruct (mapM f l); [|discriminate].
    injection H as <-. simpl. f_equal. apply IH. reflexivity.
Qed.

Lemma mapM_Forall {A B : Type} (f : A -> option B) (P : B -> Prop) l l' :
  (forall x y, f x = Some y -> P y) -> mapM f l = Some l' -> Forall P l'.
Proof.
  intros Hf. revert l'. induction l as [|x l IH]; simpl; intros l' H.
  - injection H as <-. constructor.
  - destruct (f x) eqn:Ex; [|discriminate]. destruct (mapM f l); [|discriminate].
    injection H as <-. constructor; eauto.
Qed.

Lemma v4_ip_int_range s z :
  _BaseV4._ip_int_from_string s = Ok z -> 0 <= z <= _ALL_ONES V4.
Proof.
  unfold _BaseV4._ip_int_from_string. intros H.
  destruct (String.eqb s ""); [discriminate|].
  destruct (Nat.eqb_spec (List.length (Str.split "." s)) 4) as [Hlen|]; [|discriminate].
  simpl in H. unfold bind, or_raise in H.
  destruct (mapM _BaseV4._parse_octet (Str.split "." s)) as [bs|] eqn:Em; [|discriminate].
  injection H as <-.
  pose proof (mapM_length _ _ _ Em) as Hl. rewrite Hlen in Hl.
  assert (Hall : Forall (fun b => 0 <= b <= 255) bs)
    by (eapply mapM_Forall; [exact parse_octet_range|exact Em]).
  destruct bs as [|a [|b [|c [|d [|? ?]]]]]; try discriminate Hl.
  repeat match goal with H : Forall _ (_ :: _) |- _ => inversion H; subst; clear H end.
  unfold _BaseV4.int_from_bytes, _ALL_ONES. simpl. lia.
Qed.

Lemma lor_shiftl_bound a h b :
  0 <= b -> 0 <= a < 2 ^ b -> 0 <= h < 2 ^ 16 ->
  0 <= Z.lor (Z.shiftl a 16) h < 2 ^ (b + 16).
Proof.
  intros Hb Ha Hh.
  assert (Hsh : 0 <= Z.shiftl a 16 < 2 ^ (b + 16)).
  { rewrite Z.shiftl_mul_pow2, Z.pow_add_r by lia. nia. }
  assert (H16 : 2 ^ 16 <= 2 ^ (b + 16)) by (apply Z.pow_le_mono_r; lia).
  split; [apply Z.lor_nonneg; lia|].
  assert (Hm : Z.lor (Z.shiftl a 16) h
               = Z.land (Z.lor (Z.shiftl a 16) h) (Z.ones (b + 16))).
  { rewrite Z.land_lor_distr_l, !Z.land_ones by lia.
    rewrite !Z.mod_small by lia. reflexivity. }
  rewrite Hm, Z.land_ones by lia. apply Z.mod_pos_bound.
  apply Z.pow_pos_nonneg; lia.
Qed.

Lemma parse_hextet_range s h : _BaseV6._parse_hextet s = Some h -> 0 <= h < 2 ^ 16.
Proof.
  unfold _BaseV6._parse_hextet, Str.int16. intros H.
  destruct (Str.all_chars Str.is_hex_digit s) eqn:Eh; simpl in H; [|discriminate].
  destruct (Nat.ltb_spec 4 (String.length s)); [discriminate|].
  destruct (String.eqb s ""); [discriminate|]. injection H as <-.
  pose proof (digits_value_hex_bound s 0 Eh ltac:(lia)) as Hb.
  assert (16 ^ Z.of_nat (String.length s) <= 16 ^ 4)
    by (apply Z.pow_le_mono_r; lia).
  change (2 ^ 16) with (16 ^ 4). lia.
Qed.

Lemma parse_hextets_range parts : forall acc b r,
  _BaseV6.parse_hextets acc parts = Some r ->
  0 <= b -> 0 <= acc < 2 ^ b ->
  0 <= r < 2 ^ (b + 16 * Z.of_nat (List.length parts)).
Proof.
  induction parts as [|p parts IH]; intros acc b r H Hb Hacc.
  - simpl in H. injection H as <-. simpl. rewrite Z.add_0_r. exact Hacc.
  - cbn [_BaseV6.parse_hextets] in H.
    destruct (_BaseV6._parse_hextet p) as [h|] eqn:Eh; [|discriminate].
    apply parse_hextet_range in Eh.
    apply (IH _ (b + 16)) in H; [|lia|apply lor_shiftl_bound; assumption].
    cbn [List.length]. rewrite Nat2Z.inj_succ.
    replace (b + 16 * Z.succ (Z.of_nat (List.length parts)))
      with (b + 16 + 16 * Z.of_nat (List.length parts)) by lia.
    exact H.
Qed.

Lemma find_skip_index_range parts : forall i n acc k,
  _BaseV6.find_skip_index i n parts acc = Some (Some k) ->
  acc = Some k \/ 1 <= k < n - 1.
Proof.
  induction parts as [|p parts IH]; intros i n acc k H.
  - simpl in H. left. congruence.
  - cbn [_BaseV6.find_skip_index] in H.
    destruct ((1 <=? i) && (i <? n - 1) && String.eqb p "") eqn:E.
    + destruct acc; [discriminate|].
      apply IH in H as [H|H]; [|right; exact H].
      injection H as <-. right.
      apply andb_true_iff in E as [E _]. apply andb_true_iff in E as [E1 E2].
      apply Z.leb_le in E1. apply Z.ltb_lt in E2. lia.
    + apply IH in H. exact H.
Qed.

Lemma v6_assemble_range parts parts_hi parts_lo parts_skipped z :
  0 <= parts_hi -> 0 <= parts_lo <= Z.of_nat (List.length parts) ->
  0 <= parts_skipped -> parts_hi + parts_lo + parts_skipped <= 8 ->
  match _BaseV6.parse_hextets 0 (firstn (Z.to_nat parts_hi) parts) with
  | None => None
  | Some ip_int =>
      _BaseV6.parse_hextets (Z.shiftl ip_int (16 * parts_skipped))
        (skipn (Z.to_nat (Z.of_nat (List.length parts) - parts_lo)) parts)
  end = Some z ->
  0 <= z <= _ALL_ONES V6.
Proof.
  intros Hhi Hlo Hsk Hsum H.
  destruct (_BaseV6.parse_hextets 0 (firstn (Z.to_nat parts_hi) parts))
    as [ip1|] eqn:E1; [|discriminate].
  apply (parse_hextets_range _ _ 0) in E1; [|lia|simpl; lia].
  set (len1 := Z.of_nat (List.length (firstn (Z.to_nat parts_hi) parts))) in *.
  assert (Hlen1 : 0 <= len1 <= parts_hi).
  { subst len1. rewrite length_firstn. lia. }
  apply (parse_hextets_range _ _ (16 * len1 + 16 * parts_skipped)) in H; [|lia|].
  - rewrite length_skipn in H.
    assert (Hpow : 2 ^ (16 * len1 + 16 * parts_skipped
                        + 16 * Z.of_nat (List.length parts
                              - Z.to_nat (Z.of_nat (List.length parts) - parts_lo)))
                   <= 2 ^ 128) by (apply Z.pow_le_mono_r; lia).
    unfold _ALL_ONES. simpl _max_prefixlen. unfold IPV6LENGTH. lia.
  - rewrite Z.shiftl_mul_pow2, Z.pow_add_r by lia.
    assert (0 < 2 ^ (16 * parts_skipped)) by (apply Z.pow_pos_nonneg; lia).
    rewrite Z.add_0_l in E1. split.
    + apply Z.mul_nonneg_nonneg; lia.
    + apply Z.mul_lt_mono_pos_r; lia.
Qed.

Lemma v6_ip_int_range s z :
  _BaseV6._ip_int_from_string s = Ok z -> 0 <= z <= _ALL_ONES V6.
Proof.
  unfold _BaseV6._ip_int_from_string. intros H.
  destruct (String.eqb s ""); [discriminate|].
  destruct (_ <? _)%nat; [discriminate|].
  unfold bind at 1 in H.
  match type of H with match ?x with _ => _ end = _ =>
    destruct x as [parts|]; [|discriminate] end.
  cbv zeta in H.
  destruct (Z.ltb_spec (_BaseV6._HEXTET_COUNT + 1) (Z.of_nat (List.length parts)));
    [discriminate|].
  unfold bind at 1 in H. unfold or_raise at 1 in H.
  destruct (_BaseV6.find_skip_index 0 (Z.of_nat (List.length parts)) parts None)
    as [skip_index|] eqn:Eskip; [|discriminate].
  unfold bind at 1 in H.
  match type of H with match ?x with _ => _ end = _ =>
    destruct x as [[[parts_hi parts_lo] parts_skipped]|] eqn:Ecounts; [|discriminate] end.
  unfold or_raise in H.
  match type of H with match ?x with _ => _ end = _ =>
    destruct x as [z'|] eqn:Ez; [|discriminate] end.
  injection H as <-.
  assert (Hcounts : 0 <= parts_hi /\ 0 <= parts_lo <= Z.of_nat (List.length parts)
                    /\ 0 <= parts_skipped /\ parts_hi + parts_lo + parts_skipped <= 8).
  { clear Ez. destruct skip_index as [k|].
    all: try (apply find_skip_index_range in Eskip as [Eskip|Eskip]; [discriminate|]).
    all: unfold bind in Ecounts.
    all: repeat match type of Ecounts with
           | context [if ?b then _ else _] => destruct b eqn:?
           end; try discriminate Ecounts.
    all: assert (E8 : _BaseV6._HEXTET_COUNT = 8) by reflexivity.
    all: generalize dependent _BaseV6._HEXTET_COUNT; intros c; intros.
    all: injection Ecounts as <- <- <-.
    all: repeat match goal with
           | H : negb _ = false |- _ => apply negb_false_iff in H
           | H : (_ =? _) = true |- _ => apply Z.eqb_eq in H
           | H : (_ <? _) = false |- _ => apply Z.ltb_ge in H
           end.
    all: lia. }
  destruct Hcounts as (Hhi & Hlo & Hsk & Hsum).
  exact (v6_assemble_range parts parts_hi parts_lo parts_skipped z' Hhi Hlo Hsk Hsum Ez).
Qed.

Lemma IPv4Address_range s a : IPv4Address s = Ok a -> 0 <= _ip a <= _ALL_ONES V4.
Proof.
  unfold IPv4Address. intros H. destruct (Str.contains "/" s); [discriminate|].
  unfold bind in H. destruct (_BaseV4._ip_int_from_string s) eqn:E; [|discriminate].
  injection H as <-. simpl. eauto using v4_ip_int_range.
Qed.

Lemma IPv6Address_range s a : IPv6Address s = Ok a -> 0 <= _ip a <= _ALL_ONES V6.
Proof.
  unfold IPv6Address. intros H. destruct (Str.contains "/" s); [discriminate|].
  unfold bind in H. destruct (_BaseV6._split_scope_id s); [|discriminate].
  destruct (_BaseV6._ip_int_from_string _) eqn:E; [|discriminate].
  injection H as <-. simpl. eauto using v6_ip_int_range.
Qed.

(** An accepted address fits the width of its family. *)
Lemma ip_address_range x ip :
  ip_address x = Ok ip -> 0 <= _ip ip <= _ALL_ONES (_version ip).
Proof.
  unfold ip_address, except_address_netmask. intros H.
  destruct (IPv4Address x) as [a4|e4] eqn:E4.
  - injection H as <-. destruct (IPv4Address_ok _ _ E4) as [-> _].
    eauto using IPv4Address_range.
  - destruct (IPv6Address x) as [a6|e6] eqn:E6.
    + assert (a6 = ip) by (destruct e4; congruence). subst.
      rewrite (IPv6Address_ok _ _ E6). eauto using IPv6Address_range.
    + destruct e4, e6; discriminate.
Qed.

(** ** A match contains the address *)

Lemma hostmask_ones cls p :
  0 <= p <= _max_prefixlen cls ->
  Z.lxor (_ip_int_from_prefix cls p) (_ALL_ONES cls) = Z.ones (_max_prefixlen cls - p).
Proof.
  intros Hp. pose proof (max_prefixlen_pos cls). rewrite ALL_ONES_ones.
  apply Z.bits_inj'. intros i Hi.
  rewrite Z.lxor_spec, testbit_netmask, !Z.testbit_ones_nonneg by lia.
  destruct (Z.ltb_spec i (_max_prefixlen cls)),
    (Z.ltb_spec i (_max_prefixlen cls - p)),
    (Z.leb_spec (_max_prefixlen cls - p) i); simpl; try reflexivity; lia.
Qed.

(** The last address of a network is its base plus the size of the range,
    less one. *)
Lemma broadcast_address_closed n :
  wf_network n ->
  broadcast_address n
  = _ip (network_address n) + 2 ^ (_max_prefixlen (version n) - _prefixlen n) - 1.
Proof.
  intros Hwf. unfold broadcast_address.
  pose proof (wf_prefixlen _ Hwf) as Hp. pose proof (wf_address _ Hwf) as Ha.
  pose proof (wf_canonical _ Hwf) as Hc.
  rewrite (wf_mask _ Hwf) in *. rewrite hostmask_ones by exact Hp.
  rewrite netmask_land in Hc by assumption.
  set (k := _max_prefixlen (version n) - _prefixlen n) in *.
  assert (Hdisj : Z.land (_ip (network_address n)) (Z.ones k) = 0).
  { rewrite <- Hc. apply Z.land_ldiff. }
  rewrite <- Z.lxor_lor, <- Z.add_nocarry_lxor by exact Hdisj.
  rewrite Z.ones_equiv. lia.
Qed.

Lemma Network_contains_range e ip :
  wf_network e -> 0 <= _ip ip <= _ALL_ONES (_version ip) ->
  Network_contains e ip = true ->
  version e = _version ip
  /\ _ip (network_address e) <= _ip ip <= broadcast_address e.
Proof.
  intros Hwf Hip. unfold Network_contains.
  destruct (Version_eqb (version e) (_version ip)) eqn:Ev; [|discriminate].
  apply Version_eqb_eq in Ev. simpl. intros H. apply Z.eqb_eq in H.
  split; [exact Ev|]. rewrite broadcast_address_closed by exact Hwf.
  rewrite (wf_mask _ Hwf) in H. rewrite <- Ev in Hip.
  pose proof (netmask_land_range _ _ _ _ (wf_prefixlen _ Hwf) Hip H). lia.
Qed.

(** C4: the entry that a query answers with contains the queried address:
    it is a stored entry of the family of the address, and the address lies
    between its base address and its last address. *)
Theorem is_blocked_match_contains st x r :
  reachable st -> fst (is_blocked x st) = Ok (true, r) ->
  exists ip e,
    ip_address x = Ok ip /\ In e (blocked_ips st) /\ r = Network_str e
    /\ version e = _version ip
    /\ _ip (network_address e) <= _ip ip <= broadcast_address e
    /\ broadcast_address e
       = _ip (network_address e)
         + 2 ^ (_max_prefixlen (version e) - _prefixlen e) - 1.
Proof.
  intros Hreach H.
  destruct (is_blocked_true _ _ _ H) as (ip & e & Hip & Hscan & Hr).
  destruct (scan_first_match _ _ _ Hscan) as (pre & post & Hl & Hc & _).
  assert (Hin : In e (blocked_ips st)) by (rewrite Hl; apply in_elt).
  assert (Hwf : wf_network e).
  { pose proof (reachable_wf _ Hreach) as Hall. rewrite Forall_forall in Hall. auto. }
  destruct (Network_contains_range e ip Hwf (ip_address_range _ _ Hip) Hc) as [Hv Hrange].
  exists ip, e. repeat split; auto; try apply Hrange.
  apply broadcast_address_closed, Hwf.
Qed.

Lemma is_blocked_match_contains_witness :
  exists ip e,
    ip_address "10.1.2.3" = Ok ip
    /\ In e (blocked_ips (loaded ["10.0.0.0/8"]))
    /\ "10.0.0.0/8" = Network_str e
    /\ version e = _version ip
    /\ _ip (network_address e) <= _ip ip <= broadcast_address e
    /\ broadcast_address e
       = _ip (network_address e)
         + 2 ^ (_max_prefixlen (version e) - _prefixlen e) - 1.
Proof.
  apply (is_blocked_match_contains (loaded ["10.0.0.0/8"]) "10.1.2.3" "10.0.0.0/8").
  - apply reachable_load, reachable_init.
  - vm_compute. reflexivity.
Defined.

(** ** Parsing a CIDR token *)












(** ** The order of the exported entries *)

Section SortOneVersion.

(** The networks being sorted: well formed, of one version, and without two
    zone identifiers on one base address. *)
Variable Sv : Network -> Prop.
Hypothesis Sv_wf : forall a, Sv a -> wf_network a.
Hypothesis Sv_version : forall a b, Sv a -> Sv b -> version a = version b.
Hypothesis Sv_zone :
  forall a b, Sv a -> Sv b ->
    _ip (network_address a) = _ip (network_address b) ->
    _scope_id (network_address a) = _scope_id (network_address b).

Lemma Address_eqb_network_address a b :
  Sv a -> Sv b ->
  Address_eqb (network_address a) (network_address b)
  = (_ip (network_address a) =? _ip (network_address b)).
Proof.
  intros Ha Hb. unfold Address_eqb.
  pose proof (Sv_version a b Ha Hb) as Hv. unfold version in Hv. rewrite Hv.
  assert (Version_eqb (_version (network_address b)) (_version (network_address b)) = true)
    as -> by (apply Version_eqb_eq; reflexivity).
  rewrite andb_true_r.
  destruct (Z.eqb_spec (_ip (network_address a)) (_ip (network_address b))) as [Heq|];
    [|reflexivity].
  rewrite (Sv_zone a b Ha Hb Heq).
  destruct (_version (network_address b)); [reflexivity|].
  simpl. apply scope_eqb_eq. reflexivity.
Qed.

Lemma Address_eqb_netmask a b :
  Sv a -> Sv b ->
  Address_eqb (netmask a) (netmask b) = (_ip (netmask a) =? _ip (netmask b)).
Proof.
  intros Ha Hb. unfold Address_eqb.
  rewrite (wf_mask_version _ (Sv_wf a Ha)), (wf_mask_version _ (Sv_wf b Hb)).
  rewrite (wf_mask_scope _ (Sv_wf a Ha)), (wf_mask_scope _ (Sv_wf b Hb)).
  rewrite (Sv_version a b Ha Hb).
  assert (Version_eqb (version b) (version b) = true)
    as -> by (apply Version_eqb_eq; reflexivity).
  destruct (version b); simpl; rewrite ?andb_true_r; reflexivity.
Qed.

(** On such networks [<] is the lexicographic order of base address and
    prefix length. *)
Lemma Network_ltb_key_lt a b :
  Sv a -> Sv b -> (Network_ltb a b = true <-> key_lt a b).
Proof.
  intros Ha Hb. unfold Network_ltb, key_lt.
  rewrite Address_eqb_network_address, Address_eqb_netmask by assumption.
  pose proof (wf_prefixlen _ (Sv_wf a Ha)) as Hpa.
  pose proof (wf_prefixlen _ (Sv_wf b Hb)) as Hpb.
  rewrite (Sv_version a b Ha Hb) in Hpa.
  rewrite (wf_mask _ (Sv_wf a Ha)), (wf_mask _ (Sv_wf b Hb)), (Sv_version a b Ha Hb).
  pose proof (netmask_lt (version b) _ _ Hpa Hpb) as Hlt.
  pose proof (netmask_inj (version b) _ _ Hpa Hpb) as Hinj.
  destruct (Z.eqb_spec (_ip (network_address a)) (_ip (network_address b))) as [Hip|Hip];
    cbn [negb].
  - destruct (Z.eqb_spec (_ip_int_from_prefix (version b) (_prefixlen a))
                         (_ip_int_from_prefix (version b) (_prefixlen b))) as [Hm|Hm];
      cbn [negb].
    + specialize (Hinj Hm). split; [discriminate|]. lia.
    + rewrite Z.ltb_lt. split; [intros H; right; split; [exact Hip|apply Hlt, H]|].
      intros [H|[_ H]]; [lia|apply Hlt, H].
  - rewrite Z.ltb_lt. split; [auto|]. intros [H|[H _]]; [exact H|contradiction].
Qed.

Lemma key_le_of_ltb_false a b : Sv a -> Sv b -> Network_ltb b a = false -> key_le a b.
Proof.
  intros Ha Hb H. unfold key_le.
  destruct (Network_ltb_key_lt b a Hb Ha) as [_ Hlt].
  assert (Hn : ~ key_lt b a) by (intros Hk; rewrite (Hlt Hk) in H; discriminate).
  unfold key_lt in Hn. lia.
Qed.

Lemma key_le_of_ltb_true a b : Sv a -> Sv b -> Network_ltb a b = true -> key_le a b.
Proof.
  intros Ha Hb H. apply (Network_ltb_key_lt a b Ha Hb) in H.
  unfold key_lt, key_le in *. lia.
Qed.

Lemma key_le_trans a b c : key_le a b -> key_le b c -> key_le a c.
Proof. unfold key_le. lia. Qed.

(** Two such networks with the same key are the same object. *)
Lemma key_le_antisym a b : Sv a -> Sv b -> key_le a b -> key_le b a -> a = b.
Proof.
  intros Ha Hb Hab Hba. unfold key_le in *.
  assert (Hip : _ip (network_address a) = _ip (network_address b)) by lia.
  assert (Hp : _prefixlen a = _prefixlen b) by lia.
  pose proof (Sv_zone a b Ha Hb Hip) as Hs.
  pose proof (Sv_version a b Ha Hb) as Hv.
  pose proof (Sv_wf a Ha) as Wa. pose proof (Sv_wf b Hb) as Wb.
  pose proof (wf_mask _ Wa) as Hma. pose proof (wf_mask _ Wb) as Hmb.
  pose proof (wf_mask_version _ Wa) as Hva. pose proof (wf_mask_version _ Wb) as Hvb.
  pose proof (wf_mask_scope _ Wa) as Hsa. pose proof (wf_mask_scope _ Wb) as Hsb.
  unfold version in *.
  destruct a as [[va ipa sa] [vma ipma sma] pa], b as [[vb ipb sb] [vmb ipmb smb] pb].
  cbn in *. subst. reflexivity.
Qed.

Lemma insert_by_sorted x l :
  Sv x -> Forall Sv l -> StronglySorted key_le l ->
  StronglySorted key_le (insert_by x l).
Proof.
  intros Hx Hl Hs. induction Hs as [|y l Hs IH Hy]; simpl.
  - constructor; constructor.
  - inversion Hl as [|? ? HSy HSl]; subst.
    destruct (Network_ltb y x) eqn:E.
    + constructor; [apply IH, HSl|].
      assert (Hperm := insert_by_perm x l).
      apply (Permutation_Forall (P := key_le y)) with (x := x :: l);
        [symmetry; exact Hperm|].
      constructor; [apply key_le_of_ltb_true; assumption|exact Hy].
    + assert (Hxy : key_le x y) by (apply key_le_of_ltb_false; assumption).
      constructor; [constructor; assumption|].
      constructor; [exact Hxy|].
      eapply Forall_impl; [|exact Hy]. intros z Hz. eapply key_le_trans; eauto.
Qed.

Lemma sort_by_sorted l : Forall Sv l -> StronglySorted key_le (sort_by l).
Proof.
  induction 1 as [|x l Hx Hl IH]; simpl; [constructor|].
  apply insert_by_sorted; [exact Hx|apply sort_by_Forall, Hl|exact IH].
Qed.

Lemma sorted_unique l1 : forall l2,
  Forall Sv l1 -> StronglySorted key_le l1 -> StronglySorted key_le l2 ->
  Permutation l1 l2 -> l1 = l2.
Proof.
  induction l1 as [|a l1 IH]; intros l2 HS H1 H2 Hperm.
  - apply Permutation_nil in Hperm. congruence.
  - destruct l2 as [|b l2]; [apply Permutation_sym, Permutation_nil in Hperm; discriminate|].
    assert (HS2 : Forall Sv (b :: l2)) by (rewrite <- Hperm; exact HS).
    inversion HS as [|? ? Ha Hl1]; subst. inversion HS2 as [|? ? Hb Hl2]; subst.
    inversion H1 as [|? ? H1' Hfa]; subst. inversion H2 as [|? ? H2' Hfb]; subst.
    assert (Hab : a = b).
    { apply key_le_antisym; try assumption.
      - assert (Hin : In b (a :: l1))
          by (apply (Permutation_in _ (Permutation_sym Hperm)); left; reflexivity).
        destruct Hin as [->|Hin]; [unfold key_le; lia|].
        rewrite Forall_forall in Hfa. auto.
      - assert (Hin : In a (b :: l2))
          by (apply (Permutation_in _ Hperm); left; reflexivity).
        destruct Hin as [->|Hin]; [unfold key_le; lia|].
        rewrite Forall_forall in Hfb. auto. }
    subst b. f_equal. apply IH; try assumption.
    eapply Permutation_cons_inv; eassumption.
Qed.

(** The sorted list depends on the elements only, not on their order. *)
Lemma sort_by_permutation l1 l2 :
  Forall Sv l1 -> Permutation l1 l2 -> sort_by l1 = sort_by l2.
Proof.
  intros HS Hperm.
  assert (HS2 : Forall Sv l2) by (rewrite <- Hperm; exact HS).
  apply sorted_unique.
  - apply sort_by_Forall, HS.
  - apply sort_by_sorted, HS.
  - apply sort_by_sorted, HS2.
  - rewrite !sort_by_perm. exact Hperm.
Qed.

End SortOneVersion.

(** ** The stored set after loading *)

Lemma In_set_mem n s : In n s -> set_mem n s = true.
Proof.
  intros H. unfold set_mem. apply existsb_exists. exists n.
  split; [exact H|apply Network_eqb_refl].
Qed.

Lemma set_add_NoDup n s : NoDup s -> NoDup (set_add n s).
Proof.
  intros Hs. unfold set_add. fold (set_mem n s).
  destruct (set_mem n s) eqn:E; [exact Hs|].
  apply NoDup_app; [exact Hs|constructor; [intros []|constructor]|].
  intros a Ha [<-|[]]. apply In_set_mem in Ha. congruence.
Qed.

Lemma fold_set_add_NoDup l : forall s,
  NoDup s -> NoDup (fold_left (fun s n => set_add n s) l s).
Proof.
  induction l as [|n l IH]; simpl; intros s Hs; [exact Hs|].
  apply IH, set_add_NoDup, Hs.
Qed.

Lemma fold_set_add_In m l : forall s,
  Forall wf_network l -> Forall wf_network s ->
  (In m (fold_left (fun s n => set_add n s) l s) <-> In m s \/ In m l).
Proof.
  induction l as [|n l IH]; simpl; intros s Hl Hs; [tauto|].
  inversion Hl as [|? ? Hn Hl']; subst.
  rewrite IH by (auto using set_add_wf).
  unfold set_add. fold (set_mem n s).
  destruct (set_mem n s) eqn:E.
  - apply set_mem_In in E; [|assumption..].
    split; [tauto|]. intros [H|[<-|H]]; auto.
  - rewrite in_app_iff. simpl. tauto.
Qed.

Lemma reachable_NoDup st : reachable st -> NoDup (blocked_ips st).
Proof.
  induction 1 as [|filepath file st _ IH|x st _ IH|o f st _ IH|s st _ IH Hperm].
  - constructor.
  - destruct file as [lines|]; simpl; [|exact IH].
    rewrite load_lines_spec. cbn [snd blocked_ips].
    apply fold_set_add_NoDup, IH.
  - rewrite is_blocked_state. exact IH.
  - rewrite export_blocked_ips. exact IH.
  - cbn [blocked_ips]. apply (Permutation_NoDup (Permutation_sym Hperm)), IH.
Qed.

Lemma entries_permutation lines1 lines2 :
  Permutation lines1 lines2 -> Permutation (entries lines1) (entries lines2).
Proof.
  induction 1 as [|line l1 l2 _ IH|a b l|l1 l2 l3 _ IH1 _ IH2]; simpl.
  - constructor.
  - destruct (entry_of line); [constructor|]; exact IH.
  - destruct (entry_of a), (entry_of b); try reflexivity. apply perm_swap.
  - etransitivity; eassumption.
Qed.

Lemma filter_permutation (f : Network -> bool) l1 l2 :
  Permutation l1 l2 -> Permutation (filter f l1) (filter f l2).
Proof.
  induction 1 as [|x l1 l2 _ IH|a b l|l1 l2 l3 _ IH1 _ IH2]; simpl.
  - constructor.
  - destruct (f x); [constructor|]; exact IH.
  - destruct (f a), (f b); try reflexivity. apply perm_swap.
  - etransitivity; eassumption.
Qed.

(** Loading the same lines in another order stores the same entries. *)
Lemma load_permutation filepath lines1 lines2 st :
  reachable st -> Permutation lines1 lines2 ->
  Permutation (blocked_ips (snd (load_blocklist filepath (Some lines1) st)))
              (blocked_ips (snd (load_blocklist filepath (Some lines2) st))).
Proof.
  intros Hreach Hperm. unfold load_blocklist. rewrite !load_lines_spec.
  cbn [snd blocked_ips].
  pose proof (reachable_wf _ Hreach) as Hwf.
  pose proof (reachable_NoDup _ Hreach) as Hnd.
  apply NoDup_Permutation; try (apply fold_set_add_NoDup, Hnd).
  intros m. rewrite !fold_set_add_In by (auto using entries_wf).
  pose proof (entries_permutation _ _ Hperm) as He.
  split; (intros [H|H]; [left; exact H|right]).
  - apply (Permutation_in _ He), H.
  - apply (Permutation_in _ (Permutation_sym He)), H.
Qed.

Lemma StronglySorted_app {A : Type} (R : A -> A -> Prop) l1 l2 :
  StronglySorted R l1 -> StronglySorted R l2 ->
  (forall a b, In a l1 -> In b l2 -> R a b) ->
  StronglySorted R (l1 ++ l2).
Proof.
  intros H1 H2 H. induction H1 as [|x l1 H1 IH Hx]; simpl; [exact H2|].
  constructor.
  - apply IH. intros a b Ha Hb. apply H; [right; exact Ha|exact Hb].
  - apply Forall_app. split; [exact Hx|].
    apply Forall_forall. intros b Hb. apply H; [left; reflexivity|exact Hb].
Qed.

Lemma has_version_spec k n : has_version k n = true <-> version_number (version n) = k.
Proof. unfold has_version. apply Z.eqb_eq. Qed.

Lemma version_number_inj a b : version_number a = version_number b -> a = b.
Proof. destruct a, b; simpl; congruence. Qed.

(** The networks of one version among the stored ones can be sorted. *)
Lemma filter_sortable k s :
  Forall wf_network s -> zone_consistent s ->
  (forall a, In a (filter (has_version k) s) -> wf_network a)
  /\ (forall a b, In a (filter (has_version k) s) ->
        In b (filter (has_version k) s) -> version a = version b)
  /\ (forall a b, In a (filter (has_version k) s) ->
        In b (filter (has_version k) s) ->
        _ip (network_address a) = _ip (network_address b) ->
        _scope_id (network_address a) = _scope_id (network_address b)).
Proof.
  intros Hwf Hzone. rewrite Forall_forall in Hwf.
  split; [|split].
  - intros a Ha. apply filter_In in Ha as [Ha _]. auto.
  - intros a b Ha Hb. apply filter_In in Ha as [_ Ha], Hb as [_ Hb].
    apply has_version_spec in Ha, Hb. apply version_number_inj. congruence.
  - intros a b Ha Hb. apply filter_In in Ha as [Ha Hva], Hb as [Hb Hvb].
    apply has_version_spec in Hva, Hvb. apply Hzone; auto.
    apply version_number_inj. congruence.
Qed.

Lemma sorted_networks_permutation s1 s2 :
  Forall wf_network s1 -> zone_consistent s1 -> Permutation s1 s2 ->
  sorted_networks s1 = sorted_networks s2.
Proof.
  intros Hwf Hzone Hperm. unfold sorted_networks. f_equal.
  - destruct (filter_sortable 4 s1 Hwf Hzone) as (H1 & H2 & H3).
    apply (sort_by_permutation (fun n => In n (filter (has_version 4) s1)));
      auto using filter_permutation.
    apply Forall_forall. auto.
  - destruct (filter_sortable 6 s1 Hwf Hzone) as (H1 & H2 & H3).
    apply (sort_by_permutation (fun n => In n (filter (has_version 6) s1)));
      auto using filter_permutation.
    apply Forall_forall. auto.
Qed.

Lemma sorted_networks_sorted s :
  Forall wf_network s -> zone_consistent s ->
  StronglySorted entry_le (sorted_networks s).
Proof.
  intros Hwf Hzone. unfold sorted_networks.
  assert (Hone : forall k,
             StronglySorted entry_le (sort_by (filter (has_version k) s))).
  { intros k. destruct (filter_sortable k s Hwf Hzone) as (H1 & H2 & H3).
    assert (Hs : StronglySorted key_le (sort_by (filter (has_version k) s))).
    { apply (sort_by_sorted (fun n => In n (filter (has_version k) s))); auto.
      apply Forall_forall. auto. }
    assert (Hv : Forall (fun n => version_number (version n) = k)
                   (sort_by (filter (has_version k) s))).
    { apply sort_by_Forall, Forall_forall. intros n Hn.
      apply filter_In in Hn as [_ Hn]. apply has_version_spec, Hn. }
    clear H1 H2 H3. induction Hs as [|x l Hs IH Hx]; [constructor|].
    inversion Hv as [|? ? Hvx Hvl]; subst. constructor; [apply IH, Hvl|].
    rewrite Forall_forall in *. intros y Hy. right. split; [|apply Hx, Hy].
    apply version_number_inj. rewrite (Hvl y Hy). reflexivity. }
  apply StronglySorted_app; try apply Hone.
  intros a b Ha Hb. left.
  apply (Permutation_in _ (sort_by_perm _)), filter_In in Ha as [_ Ha].
  apply (Permutation_in _ (sort_by_perm _)), filter_In in Hb as [_ Hb].
  apply has_version_spec in Ha, Hb. lia.
Qed.

Lemma sorted_networks_perm s :
  Forall wf_network s -> Permutation (sorted_networks s) s.
Proof.
  intros Hwf. unfold sorted_networks. rewrite !sort_by_perm.
  induction Hwf as [|n s Hn Hs IH]; simpl; [constructor|].
  destruct (version n) eqn:Ev.
  - assert (has_version 4 n = true) as -> by (unfold has_version; rewrite Ev; reflexivity).
    assert (has_version 6 n = false) as -> by (unfold has_version; rewrite Ev; reflexivity).
    simpl. constructor. exact IH.
  - assert (has_version 4 n = false) as -> by (unfold has_version; rewrite Ev; reflexivity).
    assert (has_version 6 n = true) as -> by (unfold has_version; rewrite Ev; reflexivity).
    rewrite <- Permutation_middle. constructor. exact IH.
Qed.

Lemma zone_consistent_permutation s1 s2 :
  Permutation s1 s2 -> zone_consistent s1 -> zone_consistent s2.
Proof.
  intros Hperm Hzone a b Ha Hb. apply Hzone.
  - apply (Permutation_in _ (Permutation_sym Hperm)), Ha.
  - apply (Permutation_in _ (Permutation_sym Hperm)), Hb.
Qed.

(** C5, as the code has it: the exported sequence holds the IPv4 entries
    before the IPv6 entries, each family by base address and then by prefix
    length, and it is the same whatever the order of the loaded lines and
    whatever the iteration order of the set, as long as no two stored
    entries of one family share a base address and differ in the zone
    identifier.  Here [st1] and [st2] hold, in any iteration order, what is
    stored after loading [lines1] and, respectively, [lines2]. *)
Theorem sort_networks_canonical filepath lines1 lines2 st st1 st2 :
  reachable st -> Permutation lines1 lines2 ->
  Permutation (blocked_ips st1)
    (blocked_ips (snd (load_blocklist filepath (Some lines1) st))) ->
  Permutation (blocked_ips st2)
    (blocked_ips (snd (load_blocklist filepath (Some lines2) st))) ->
  zone_consistent (blocked_ips st1) ->
  exists out,
    _sort_networks st1 = (Ok out, st1)
    /\ _sort_networks st2 = (Ok out, st2)
    /\ StronglySorted entry_le out
    /\ Permutation out (blocked_ips st1).
Proof.
  intros Hreach Hperm H1 H2 Hzone.
  assert (Hwf1 : Forall wf_network (blocked_ips st1)).
  { rewrite H1. apply reachable_wf, reachable_load, Hreach. }
  assert (Hwf2 : Forall wf_network (blocked_ips st2)).
  { rewrite H2. apply reachable_wf, reachable_load, Hreach. }
  exists (sorted_networks (blocked_ips st1)). repeat split.
  - apply sort_networks_pure, Hwf1.
  - rewrite (sorted_networks_permutation (blocked_ips st1) (blocked_ips st2));
      [apply sort_networks_pure, Hwf2|assumption..|].
    rewrite H1, H2. apply load_permutation; assumption.
  - apply sorted_networks_sorted; assumption.
  - apply sorted_networks_perm, Hwf1.
Qed.

Lemma sort_networks_canonical_witness :
  exists out,
    _sort_networks (loaded ["2.2.2.2/24"; "::1"; "1.1.1.1"])
    = (Ok out, loaded ["2.2.2.2/24"; "::1"; "1.1.1.1"])
    /\ _sort_networks (loaded ["1.1.1.1"; "2.2.2.2/24"; "::1"])
       = (Ok out, loaded ["1.1.1.1"; "2.2.2.2/24"; "::1"])
    /\ StronglySorted entry_le out
    /\ Permutation out (blocked_ips (loaded ["2.2.2.2/24"; "::1"; "1.1.1.1"])).
Proof.
  apply (sort_networks_canonical "blocklist.txt"
           ["2.2.2.2/24"; "::1"; "1.1.1.1"] ["1.1.1.1"; "2.2.2.2/24"; "::1"] init).
  - apply reachable_init.
  - apply Permutation_sym, (Permutation_cons_app ["2.2.2.2/24"; "::1"] []).
    reflexivity.
  - reflexivity.
  - reflexivity.
  - intros a b Ha Hb Hv Hip. vm_compute in Ha, Hb.
    destruct Ha as [<-|[<-|[<-|[]]]], Hb as [<-|[<-|[<-|[]]]];
      try reflexivity; vm_compute in Hv; vm_compute in Hip; discriminate.
Defined.

(** C5, as the specification words it, fails: fe80::%a/64 and fe80::%b/64
    are exported in the order in which they were loaded. *)
Lemma zone_identifiers_break_the_order : ~ export_order_is_canonical.
Proof.
  intros H.
  destruct (H ["fe80::%a/64"; "fe80::%b/64"] ["fe80::%b/64"; "fe80::%a/64"])
    as (out & H1 & H2 & _).
  - apply perm_swap.
  - vm_compute in H1, H2. injection H1 as <-. discriminate H2.
Qed.
